(** * userValidator.js: validation and processing of user data

    A shallow embedding of [src/userValidator.js] and the properties its
    specification states about it.

    Conventions of the embedding.
    - A JavaScript string is the list of its UTF-16 code units.
    - A JavaScript number is NaN, an infinity or a finite value, given by
      the rational it denotes.  Comparisons are those of IEEE 754; [+],
      [*] and [/] compute the exact result and round it to binary64
      (to nearest, ties to even, overflow to an infinity).  The sign of
      zero is not represented.
    - Values are undefined, null, booleans, numbers, strings and
      references; functions, symbols and bigints are left out.  Objects
      (plain ones, with own data properties) and arrays (dense) live in
      a heap and values refer to them by location, so that "a new array"
      and "the input is left as it was" are statements about the heap.
    - [String.prototype.toUpperCase] and [toLowerCase] belong to the
      host: the functions that use them take them as parameters (Section
      [Host]); the examples run on the conversion tables of the Latin-1
      range.  The clock is part of the state a call runs in. *)

From Stdlib Require Import List Bool Ascii String ZArith NArith QArith Qround.
From Stdlib Require Import Lia ZifyBool Lqa.
From Stdlib Require Qcanon.
Import ListNotations.

Local Open Scope N_scope.

(* ================================================================== *)
(** * Strings *)

Definition code_unit := N.
Definition jsstring := list code_unit.

(** The string of an ASCII literal. *)
Definition js (s : string) : jsstring :=
  map N_of_ascii (list_ascii_of_string s).

(** [\s]: WhiteSpace and LineTerminator of ECMAScript. *)
Definition is_white_space (c : code_unit) : bool :=
  ((9 <=? c) && (c <=? 13))
  || (c =? 32) || (c =? 160) || (c =? 5760)
  || ((8192 <=? c) && (c <=? 8202))
  || (c =? 8232) || (c =? 8233) || (c =? 8239) || (c =? 8287)
  || (c =? 12288) || (c =? 65279).

(** [[^\s@]] *)
Definition non_space_non_at (c : code_unit) : bool :=
  negb (is_white_space c || (c =? 64)).

(** [\d] *)
Definition is_digit (c : code_unit) : bool := (48 <=? c) && (c <=? 57).

(** [[A-Z]] *)
Definition is_upper_AZ (c : code_unit) : bool := (65 <=? c) && (c <=? 90).

(* ================================================================== *)
(** * Regular expressions *)

Module Regex.

Inductive regex : Type :=
| Never
| Empty
| Class (p : code_unit -> bool)
| Seq (r1 r2 : regex)
| Or (r1 r2 : regex)
| Star (r : regex).

Definition Chr (c : code_unit) : regex := Class (N.eqb c).
Definition Any : regex := Class (fun _ => true).
(** [r+] *)
Definition Plus (r : regex) : regex := Seq r (Star r).

(** The strings a regular expression matches in full. *)
Inductive lang : regex -> jsstring -> Prop :=
| lang_empty : lang Empty []
| lang_class p c : p c = true -> lang (Class p) [c]
| lang_seq r1 r2 s1 s2 :
    lang r1 s1 -> lang r2 s2 -> lang (Seq r1 r2) (s1 ++ s2)
| lang_or_l r1 r2 s : lang r1 s -> lang (Or r1 r2) s
| lang_or_r r1 r2 s : lang r2 s -> lang (Or r1 r2) s
| lang_star_nil r : lang (Star r) []
| lang_star_app r s1 s2 :
    lang r s1 -> lang (Star r) s2 -> lang (Star r) (s1 ++ s2).

Fixpoint nullable (r : regex) : bool :=
  match r with
  | Never => false
  | Empty => true
  | Class _ => false
  | Seq r1 r2 => nullable r1 && nullable r2
  | Or r1 r2 => nullable r1 || nullable r2
  | Star _ => true
  end.

(** What is left of [r] once the code unit [c] is read. *)
Fixpoint deriv (c : code_unit) (r : regex) : regex :=
  match r with
  | Never => Never
  | Empty => Never
  | Class p => if p c then Empty else Never
  | Seq r1 r2 =>
      if nullable r1
      then Or (Seq (deriv c r1) r2) (deriv c r2)
      else Seq (deriv c r1) r2
  | Or r1 r2 => Or (deriv c r1) (deriv c r2)
  | Star r1 => Seq (deriv c r1) (Star r1)
  end.

Fixpoint matches (r : regex) (s : jsstring) : bool :=
  match s with
  | [] => nullable r
  | c :: s' => matches (deriv c r) s'
  end.

(** A regular expression literal: its body and whether it opens with
    [^] and closes with [$] (no flags). *)
Record pattern : Type := Pattern {
  at_start : bool;
  body : regex;
  at_end : bool
}.

(** [RegExp.prototype.test]: some substring matches the body; [^] pins
    its start to the start of the string and [$] its end to the end. *)
Definition test (p : pattern) (s : jsstring) : bool :=
  matches
    (Seq (if at_start p then Empty else Star Any)
         (Seq (body p) (if at_end p then Empty else Star Any)))
    s.

End Regex.
Import Regex.

(* ================================================================== *)
(** * Numbers *)

Inductive number : Type :=
| NaN
| Inf (negative : bool)
| Fin (q : Q).

Definition num_of_Z (z : Z) : number := Fin (inject_Z z).

(** [a < b] *)
Definition num_lt (a b : number) : bool :=
  match a, b with
  | NaN, _ | _, NaN => false
  | Inf true, Inf true => false
  | Inf true, _ => true
  | _, Inf true => false
  | Inf false, _ => false
  | _, Inf false => true
  | Fin x, Fin y => if Qlt_le_dec x y then true else false
  end.

(** [a > b] *)
Definition num_gt (a b : number) : bool := num_lt b a.

(** [a >= b] *)
Definition num_ge (a b : number) : bool :=
  match a, b with
  | NaN, _ | _, NaN => false
  | _, Inf true => true
  | Inf true, _ => false
  | Inf false, _ => true
  | _, Inf false => false
  | Fin x, Fin y => Qle_bool y x
  end.

(** ** Rounding to binary64 *)

(** The integer nearest to [n/d] for [d > 0], a tie going to the even
    one. *)
Definition round_half_even (n d : Z) : Z :=
  let f := (n / d)%Z in
  match (2 * (n mod d) ?= d)%Z with
  | Lt => f
  | Gt => (f + 1)%Z
  | Eq => if Z.even f then f else (f + 1)%Z
  end.

(** The binary exponent of [n/d] for [n, d > 0]: the [e] with
    [2^e <= n/d < 2^(e+1)]. *)
Definition Qlog2 (n d : Z) : Z :=
  let e := (Z.log2 n - Z.log2 d)%Z in
  let below :=
    if (0 <=? e)%Z then (n <? d * 2 ^ e)%Z else (n * 2 ^ (- e) <? d)%Z in
  if below then (e - 1)%Z else e.

(** [m * 2^u] *)
Definition scale2 (m u : Z) : Q :=
  if (0 <=? u)%Z then inject_Z (m * 2 ^ u)
  else Qred (Qmake m (Z.to_pos (2 ^ (- u)))).

(** The binary64 value nearest to [n/d] for [n, d > 0]: a significand of
    53 bits, or fewer below [2^-1022] (the unit in the last place is at
    least [2^-1074]); [2^1024] and above is an infinity. *)
Definition round64_pos (n d : Z) : number :=
  let u := Z.max (Qlog2 n d - 52) (-1074) in
  let m :=
    if (0 <=? u)%Z then round_half_even n (d * 2 ^ u)
    else round_half_even (n * 2 ^ (- u)) d in
  if (2 ^ 1024 <=? m * 2 ^ u)%Z then Inf false else Fin (scale2 m u).

(** [- a] *)
Definition num_opp (a : number) : number :=
  match a with
  | NaN => NaN
  | Inf s => Inf (negb s)
  | Fin x => Fin (Qred (- x))
  end.

(** The binary64 value nearest to [q], read in lowest terms. *)
Definition round64 (q : Q) : number :=
  let r := Qred q in
  match Qnum r with
  | Z0 => Fin 0
  | Zpos n => round64_pos (Zpos n) (Zpos (Qden r))
  | Zneg n => num_opp (round64_pos (Zpos n) (Zpos (Qden r)))
  end.

(** [a + b] *)
Definition num_add (a b : number) : number :=
  match a, b with
  | NaN, _ | _, NaN => NaN
  | Inf s, Inf t => if Bool.eqb s t then Inf s else NaN
  | Inf s, Fin _ => Inf s
  | Fin _, Inf t => Inf t
  | Fin x, Fin y => round64 (x + y)
  end.

Definition Q_negative (x : Q) : bool :=
  if Qlt_le_dec x 0 then true else false.
Definition Q_zero (x : Q) : bool := Qeq_bool x 0.

(** [a * b] *)
Definition num_mul (a b : number) : number :=
  match a, b with
  | NaN, _ | _, NaN => NaN
  | Inf s, Inf t => Inf (xorb s t)
  | Inf s, Fin y => if Q_zero y then NaN else Inf (xorb s (Q_negative y))
  | Fin x, Inf t => if Q_zero x then NaN else Inf (xorb (Q_negative x) t)
  | Fin x, Fin y => round64 (x * y)
  end.

(** [a / b]; a zero divisor is taken as [+0]. *)
Definition num_div (a b : number) : number :=
  match a, b with
  | NaN, _ | _, NaN => NaN
  | Inf _, Inf _ => NaN
  | Inf s, Fin y => Inf (xorb s (Q_negative y))
  | Fin _, Inf _ => Fin 0
  | Fin x, Fin y =>
      if Q_zero y
      then (if Q_zero x then NaN else Inf (Q_negative x))
      else round64 (x / y)
  end.

(** [Math.round]: the nearest integer, a tie going to the larger one. *)
Definition Math_round (a : number) : number :=
  match a with
  | Fin x => num_of_Z (Qfloor (x + (1 # 2)))
  | _ => a
  end.

(* ================================================================== *)
(** * Values, heap and outcomes *)

Definition loc := nat.

Inductive value : Type :=
| VUndefined
| VNull
| VBoolean (b : bool)
| VNumber (n : number)
| VString (s : jsstring)
| VRef (l : loc).

(** What a location holds: a plain object (own data properties, first
    binding of a key first) or an array. *)
Inductive cell : Type :=
| CObject (props : list (string * value))
| CArray (elems : list value).

(** The state a call runs in: the heap, and the ISO-8601 string that
    [new Date().toISOString()] yields in it. *)
Record world : Type := World {
  heap : list cell;
  clock : jsstring
}.

Inductive exn : Type :=
| Error (message : string)
| TypeError.

(** How an evaluation ends.  [Unmodelled] marks the coercions left out:
    string-to-number, number-to-string and object-to-primitive. *)
Inductive outcome (A : Type) : Type :=
| Return (a : A)
| Throw (e : exn)
| Unmodelled.
Arguments Return {A} a.
Arguments Throw {A} e.
Arguments Unmodelled {A}.

Definition bind {A B : Type} (m : outcome A) (f : A -> outcome B) : outcome B :=
  match m with
  | Return a => f a
  | Throw e => Throw e
  | Unmodelled => Unmodelled
  end.

Notation "x <- m ;; k" := (bind m (fun x => k))
  (at level 61, m at next level, right associativity).

Local Open Scope string_scope.
Local Open Scope list_scope.

Definition typeof (v : value) : string :=
  match v with
  | VUndefined => "undefined"
  | VNull => "object"
  | VBoolean _ => "boolean"
  | VNumber _ => "number"
  | VString _ => "string"
  | VRef _ => "object"
  end.

(** The elements of [v] when [Array.isArray(v)]. *)
Definition array_elems (w : world) (v : value) : option (list value) :=
  match v with
  | VRef l =>
      match nth_error (heap w) l with
      | Some (CArray elems) => Some elems
      | _ => None
      end
  | _ => None
  end.

Definition isArray (w : world) (v : value) : bool :=
  match array_elems w v with Some _ => true | None => false end.

Fixpoint lookup (k : string) (props : list (string * value)) : value :=
  match props with
  | [] => VUndefined
  | (k', v) :: rest => if String.eqb k k' then v else lookup k rest
  end.

(** [v.k] for a key that no prototype defines and that is neither
    [length] nor an index: the module reads [email], [password], [name]
    and [age].  Reading a property of [undefined] or [null] raises a
    [TypeError]; a primitive has no such property. *)
Definition get (w : world) (v : value) (k : string) : outcome value :=
  match v with
  | VUndefined | VNull => Throw TypeError
  | VRef l =>
      match nth_error (heap w) l with
      | Some (CObject props) => Return (lookup k props)
      | Some (CArray _) => Return VUndefined
      | None => Unmodelled
      end
  | _ => Return VUndefined
  end.

(** A fresh location for [c]. *)
Definition alloc (c : cell) (w : world) : value * world :=
  (VRef (List.length (heap w)), World (heap w ++ [c]) (clock w)).

(** ToNumber *)
Definition ToNumber (v : value) : outcome number :=
  match v with
  | VUndefined => Return NaN
  | VNull => Return (num_of_Z 0)
  | VBoolean b => Return (num_of_Z (if b then 1 else 0))
  | VNumber n => Return n
  | VString _ => Unmodelled
  | VRef _ => Unmodelled
  end.

(** Code-unit order of two strings: [a < b]. *)
Fixpoint str_lt (a b : jsstring) : bool :=
  match a, b with
  | _, [] => false
  | [], _ :: _ => true
  | x :: a', y :: b' => (x <? y)%N || ((x =? y)%N && str_lt a' b')
  end.

(** [a >= b] *)
Definition js_ge (a b : value) : outcome bool :=
  match a, b with
  | VString x, VString y => Return (negb (str_lt x y))
  | _, _ => x <- ToNumber a;; y <- ToNumber b;; Return (num_ge x y)
  end.

(** [a + b] *)
Definition js_add (a b : value) : outcome value :=
  match a, b with
  | VString _, _ | _, VString _ => Unmodelled
  | _, _ => x <- ToNumber a;; y <- ToNumber b;; Return (VNumber (num_add x y))
  end.

(** [a / b] *)
Definition js_div (a b : value) : outcome value :=
  x <- ToNumber a;; y <- ToNumber b;; Return (VNumber (num_div x y)).

(** [a * b] *)
Definition js_mul (a b : value) : outcome value :=
  x <- ToNumber a;; y <- ToNumber b;; Return (VNumber (num_mul x y)).

(** [Array.prototype.filter] with a callback that may throw. *)
Fixpoint array_filter (f : value -> outcome bool) (l : list value)
  : outcome (list value) :=
  match l with
  | [] => Return []
  | x :: rest =>
      keep <- f x;;
      kept <- array_filter f rest;;
      Return (if keep then x :: kept else kept)
  end.

(** [Array.prototype.reduce] with an initial value. *)
Fixpoint array_reduce (f : value -> value -> outcome value) (l : list value)
    (acc : value) : outcome value :=
  match l with
  | [] => Return acc
  | x :: rest => acc' <- f acc x;; array_reduce f rest acc'
  end.

(** [s.charAt(i)] *)
Definition charAt (s : jsstring) (i : nat) : jsstring :=
  match nth_error s i with
  | Some c => [c]
  | None => []
  end.

(** [s.slice(i)] for [i >= 0] *)
Definition slice (s : jsstring) (i : nat) : jsstring := skipn i s.

(* ================================================================== *)
(** * The module *)

(** [/^[^\s@]+@[^\s@]+\.[^\s@]+$/] *)
Definition emailRegex : pattern :=
  Pattern true
    (Seq (Plus (Class non_space_non_at))
      (Seq (Chr 64)
        (Seq (Plus (Class non_space_non_at))
          (Seq (Chr 46)
            (Plus (Class non_space_non_at))))))
    true.

(** [if (typeof email !== 'string') return false;
     return emailRegex.test(email);] *)
Definition validateEmail (email : value) : bool :=
  match email with
  | VString s => test emailRegex s
  | _ => false
  end.

(** [if (typeof password !== 'string') return false;
     if (password.length < 8) return false;
     return /\d/.test(password) && /[A-Z]/.test(password);] *)
Definition validatePassword (password : value) : bool :=
  match password with
  | VString s =>
      if (List.length s <? 8)%nat then false
      else
        let hasDigit := test (Pattern false (Class is_digit) false) s in
        let hasUpperCase := test (Pattern false (Class is_upper_AZ) false) s in
        hasDigit && hasUpperCase
  | _ => false
  end.

(** [if (!Array.isArray(users)) throw new Error(...);
     if (typeof minAge !== 'number' || minAge < 0) throw new Error(...);
     return users.filter(user => user.age >= minAge);]
    The result is a newly allocated array. *)
Definition filterUsersByAge (users minAge : value) (w : world)
  : outcome (value * world) :=
  match array_elems w users with
  | None => Throw (Error "Users must be an array")
  | Some elems =>
      match minAge with
      | VNumber m =>
          if num_lt m (num_of_Z 0)
          then Throw (Error "MinAge must be a positive number")
          else
            kept <- array_filter
                      (fun user => age <- get w user "age";; js_ge age minAge)
                      elems;;
            Return (alloc (CArray kept) w)
      | _ => Throw (Error "MinAge must be a positive number")
      end
  end.

(** [if (!Array.isArray(users) || users.length === 0) throw new Error(...);
     const totalAge = users.reduce((sum, user) => sum + user.age, 0);
     return Math.round((totalAge / users.length) * 100) / 100;] *)
Definition calculateAverageAge (users : value) (w : world)
  : outcome (value * world) :=
  match array_elems w users with
  | None => Throw (Error "Users must be a non-empty array")
  | Some [] => Throw (Error "Users must be a non-empty array")
  | Some elems =>
      totalAge <- array_reduce
                    (fun sum user => age <- get w user "age";; js_add sum age)
                    elems (VNumber (num_of_Z 0));;
      avg <- js_div totalAge (VNumber (num_of_Z (Z.of_nat (List.length elems))));;
      scaled <- js_mul avg (VNumber (num_of_Z 100));;
      n <- ToNumber scaled;;
      r <- js_div (VNumber (Math_round n)) (VNumber (num_of_Z 100));;
      Return (r, w)
  end.

Section Host.

(** [String.prototype.toUpperCase] and [toLowerCase] of the host. *)
Variable toUpperCase toLowerCase : jsstring -> jsstring.

(** [if (typeof name !== 'string' || name.length === 0) throw new Error(...);
     return name.charAt(0).toUpperCase() + name.slice(1).toLowerCase();] *)
Definition formatUserName (name : value) : outcome value :=
  match name with
  | VString s =>
      if (List.length s =? 0)%nat
      then Throw (Error "Name must be a non-empty string")
      else Return (VString (toUpperCase (charAt s 0)
                            ++ toLowerCase (slice s 1)))
  | _ => Throw (Error "Name must be a non-empty string")
  end.

(** [const { email, password, name, age } = userData;] then the three
    checks [!validateEmail(email)], [!validatePassword(password)],
    [typeof age !== 'number' || age < 0 || age > 150], each with its
    [throw]; then the record
    [{ email, name: formatUserName(name), age,
       createdAt: new Date().toISOString() }], newly allocated. *)
Definition createUser (userData : value) (w : world)
  : outcome (value * world) :=
  email <- get w userData "email";;
  password <- get w userData "password";;
  name <- get w userData "name";;
  age <- get w userData "age";;
  if negb (validateEmail email) then Throw (Error "Invalid email")
  else if negb (validatePassword password) then Throw (Error "Invalid password")
  else
    let bad_age :=
      match age with
      | VNumber a => num_lt a (num_of_Z 0) || num_gt a (num_of_Z 150)
      | _ => true
      end in
    if bad_age then Throw (Error "Invalid age")
    else
      formatted <- formatUserName name;;
      Return (alloc (CObject [("email", email);
                              ("name", formatted);
                              ("age", age);
                              ("createdAt", VString (clock w))]) w).

End Host.

(** ** Case conversion on the Latin-1 range

    The conversions of ECMAScript for code units below 256; its two
    upper-case images outside that range, U+039C and U+0178, are their
    own upper case.  Other code units are passed through. *)

Definition upper_unit (c : code_unit) : jsstring :=
  (if (97 <=? c) && (c <=? 122) then [c - 32]
   else if c =? 181 then [924]
   else if c =? 223 then [83; 83]
   else if ((224 <=? c) && (c <=? 246)) || ((248 <=? c) && (c <=? 254))
        then [c - 32]
   else if c =? 255 then [376]
   else [c])%N.

Definition lower_unit (c : code_unit) : code_unit :=
  (if (65 <=? c) && (c <=? 90) then c + 32
   else if ((192 <=? c) && (c <=? 214)) || ((216 <=? c) && (c <=? 222))
        then c + 32
   else c)%N.

Definition latin1_toUpperCase (s : jsstring) : jsstring := flat_map upper_unit s.
Definition latin1_toLowerCase (s : jsstring) : jsstring := map lower_unit s.

Definition latin1 (c : code_unit) : Prop := (c < 256)%N.

(* ================================================================== *)
(** * Vocabulary of the specification *)

(** A non-whitespace, non-[@] character. *)
Definition plain (c : code_unit) : Prop :=
  is_white_space c = false /\ c <> 64%N.

(** One or more plain characters, [@], one or more plain characters, a
    dot, one or more plain characters: the whole string. *)
Definition email_shape (s : jsstring) : Prop :=
  exists l d t : jsstring,
    s = l ++ 64%N :: d ++ 46%N :: t
    /\ l <> [] /\ d <> [] /\ t <> []
    /\ Forall plain l /\ Forall plain d /\ Forall plain t.

(** An ASCII digit, [0] to [9]. *)
Definition ascii_digit (c : code_unit) : Prop := (48 <= c <= 57)%N.

(** An ASCII upper-case letter, [A] to [Z]. *)
Definition ascii_upper (c : code_unit) : Prop := (65 <= c <= 90)%N.

(** At least 8 code units, one of them a digit and one an upper-case
    letter. *)
Definition strong_password (s : jsstring) : Prop :=
  (8 <= List.length s)%nat /\ Exists ascii_digit s /\ Exists ascii_upper s.

(** The numeric age of [v]: [v] refers to an object whose [age] property
    is a number. *)
Definition age_of (w : world) (v : value) : option number :=
  match v with
  | VRef l =>
      match nth_error (heap w) l with
      | Some (CObject props) =>
          match lookup "age" props with
          | VNumber a => Some a
          | _ => None
          end
      | _ => None
      end
  | _ => None
  end.

(** A user-like mapping: [v] refers to an object whose [age] property
    is a number or is absent. *)
Definition user_like (w : world) (v : value) : bool :=
  match v with
  | VRef l =>
      match nth_error (heap w) l with
      | Some (CObject props) =>
          match lookup "age" props with
          | VNumber _ | VUndefined => true
          | _ => false
          end
      | _ => false
      end
  | _ => false
  end.

(** The elements that have an age of at least [m], in their order. *)
Definition aged_at_least (w : world) (m : number) (elems : list value)
  : list value :=
  filter (fun v => match age_of w v with
                   | Some a => num_ge a m
                   | None => false
                   end) elems.

(** [v] refers to a mapping whose [age] is the finite number [q]. *)
Definition has_finite_age (w : world) (v : value) (q : Q) : Prop :=
  age_of w v = Some (Fin q).




(** The sum of the ages as [reduce] computes it: from 0, left to right,
    every addition rounded to binary64. *)
Definition binary64_sum (qs : list Q) : number :=
  fold_left num_add (map Fin qs) (num_of_Z 0).

(** [(totalAge / users.length) * 100] in binary64. *)
Definition scaled_mean (qs : list Q) : number :=
  num_mul (num_div (binary64_sum qs)
                   (num_of_Z (Z.of_nat (List.length qs))))
          (num_of_Z 100).



(** The age check of [createUser] fails: not numeric, below 0 or above
    150. *)
Definition invalid_age (v : value) : Prop :=
  typeof v <> "number"
  \/ exists a, v = VNumber a
              /\ (num_lt a (num_of_Z 0) = true
                  \/ num_gt a (num_of_Z 150) = true).

(** The [minAge] check of [filterUsersByAge] fails: not of type number,
    or below 0. *)
Definition rejected_minAge (v : value) : Prop :=
  typeof v <> "number"
  \/ exists m, v = VNumber m /\ num_lt m (num_of_Z 0) = true.

(** A number that is at least 0. *)
Definition non_negative_number (v : value) : Prop :=
  exists m, v = VNumber m /\ num_ge m (num_of_Z 0) = true.

(** ** Example states *)

Definition num (z : Z) : value := VNumber (num_of_Z z).

(** The users Alice 25, Bob 17, Charlie 30, David 16 and, at location 4,
    the array of the four. *)
Definition four_users : world :=
  World
    [CObject [("name", VString (js "Alice")); ("age", num 25)];
     CObject [("name", VString (js "Bob")); ("age", num 17)];
     CObject [("name", VString (js "Charlie")); ("age", num 30)];
     CObject [("name", VString (js "David")); ("age", num 16)];
     CArray [VRef 0%nat; VRef 1%nat; VRef 2%nat; VRef 3%nat]]
    (js "2024-05-01T12:00:00.000Z").

(** Ages 20, 30, 40 and, at location 3, the array of the three. *)
Definition three_users : world :=
  World
    [CObject [("age", num 20)];
     CObject [("age", num 30)];
     CObject [("age", num 40)];
     CArray [VRef 0%nat; VRef 1%nat; VRef 2%nat]]
    (js "2024-05-01T12:00:00.000Z").


(** The array [[null]] at location 0. *)
Definition null_user : world :=
  World [CArray [VNull]] (js "2024-05-01T12:00:00.000Z").

(** 23 users of age 1 and 17 of age 0: the array at location 2. *)
Definition forty_users : world :=
  World
    [CObject [("age", num 1)];
     CObject [("age", num 0)];
     CArray (repeat (VRef 0%nat) 23 ++ repeat (VRef 1%nat) 17)]
    (js "2024-05-01T12:00:00.000Z").

(** Ages [2^53] and 1: the array at location 2. *)
Definition two_large_users : world :=
  World
    [CObject [("age", num (2 ^ 53))];
     CObject [("age", num 1)];
     CArray [VRef 0%nat; VRef 1%nat]]
    (js "2024-05-01T12:00:00.000Z").

(** One user of age [2^1020]: the array at location 1. *)
Definition huge_user : world :=
  World
    [CObject [("age", num (2 ^ 1020))];
     CArray [VRef 0%nat]]
    (js "2024-05-01T12:00:00.000Z").

(** An empty array at location 0. *)
Definition no_users : world :=
  World [CArray []] (js "2024-05-01T12:00:00.000Z").

(** The valid user data of the tests, at location 0. *)
Definition valid_user_data : world :=
  World
    [CObject [("email", VString (js "test@example.com"));
              ("password", VString (js "Password123"));
              ("name", VString (js "john"));
              ("age", num 25)]]
    (js "2024-05-01T12:00:00.000Z").

(** The same with the password ["weak"]. *)
Definition weak_password_data : world :=
  World
    [CObject [("email", VString (js "test@example.com"));
              ("password", VString (js "weak"));
              ("name", VString (js "john"));
              ("age", num 25)]]
    (js "2024-05-01T12:00:00.000Z").

(** The same with the age 200. *)
Definition age_200_data : world :=
  World
    [CObject [("email", VString (js "test@example.com"));
              ("password", VString (js "Password123"));
              ("name", VString (js "john"));
              ("age", num 200)]]
    (js "2024-05-01T12:00:00.000Z").

(** ** Further vocabulary *)

(** [null] or [undefined]. *)
Definition is_nullish (v : value) : bool :=
  match v with
  | VNull | VUndefined => true
  | _ => false
  end.

Definition is_NaN (n : number) : bool :=
  match n with NaN => true | _ => false end.

(** The age of a user-like mapping as [+] takes it: its number, NaN when
    the property is absent. *)
Definition age_or_NaN (w : world) (v : value) : number :=
  match age_of w v with Some a => a | None => NaN end.

(** The sum of integer ages. *)
Definition Zsum (zs : list Z) : Z := fold_right Z.add 0%Z zs.

(** An ASCII lower-case letter, [a] to [z]. *)
Definition ascii_lower (c : code_unit) : Prop := (97 <= c <= 122)%N.

Definition ascii_letter (c : code_unit) : Prop :=
  ascii_upper c \/ ascii_lower c.

(** The four properties of the record [createUser] builds. *)
Definition record_key (k : string) : bool :=
  String.eqb k "email" || String.eqb k "name"
  || String.eqb k "age" || String.eqb k "createdAt".

(** The valid user data with the age NaN. *)
Definition nan_age_data : world :=
  World
    [CObject [("email", VString (js "test@example.com"));
              ("password", VString (js "Password123"));
              ("name", VString (js "john"));
              ("age", VNumber NaN)]]
    (js "2024-05-01T12:00:00.000Z").

(** A user of age 20, a user without age and, at location 2, the array
    of the two. *)
Definition ageless_user : world :=
  World
    [CObject [("age", num 20)];
     CObject [("name", VString (js "Bob"))];
     CArray [VRef 0%nat; VRef 1%nat]]
    (js "2024-05-01T12:00:00.000Z").

(* ================================================================== *)
(** * Regular expressions: the matcher decides the language *)

Lemma lang_empty_inv s : lang Empty s <-> s = [].
Proof.
  split.
  - intros H; inversion H; reflexivity.
  - intros ->; constructor.
Qed.

Lemma lang_class_inv p s :
  lang (Class p) s <-> exists c, s = [c] /\ p c = true.
Proof.
  split.
  - intros H; inversion H; subst; eauto.
  - intros (c & -> & Hc); now constructor.
Qed.

Lemma lang_seq_inv r1 r2 s :
  lang (Seq r1 r2) s <->
  exists s1 s2, s = s1 ++ s2 /\ lang r1 s1 /\ lang r2 s2.
Proof.
  split.
  - intros H; inversion H; subst; eauto.
  - intros (s1 & s2 & -> & H1 & H2); now constructor.
Qed.

Lemma lang_or_inv r1 r2 s :
  lang (Or r1 r2) s <-> lang r1 s \/ lang r2 s.
Proof.
  split.
  - intros H; inversion H; subst; auto.
  - intros [H | H]; [now apply lang_or_l | now apply lang_or_r].
Qed.

Lemma nullable_lang r : nullable r = true <-> lang r [].
Proof.
  induction r as [| | p | r1 IH1 r2 IH2 | r1 IH1 r2 IH2 | r IH]; simpl.
  - split; [discriminate | intros H; inversion H].
  - split; [constructor | reflexivity].
  - split; [discriminate | intros H; inversion H].
  - rewrite andb_true_iff, IH1, IH2, lang_seq_inv. split.
    + intros [H1 H2]. exists [], []. auto.
    + intros (s1 & s2 & E & H1 & H2).
      symmetry in E. apply app_eq_nil in E as [-> ->]. auto.
  - rewrite orb_true_iff, IH1, IH2, lang_or_inv. reflexivity.
  - split; [constructor | reflexivity].
Qed.

(** A non-empty match of [r*] starts with a non-empty match of [r]. *)
Lemma lang_star_cons r c s :
  lang (Star r) (c :: s) ->
  exists s1 s2, s = s1 ++ s2 /\ lang r (c :: s1) /\ lang (Star r) s2.
Proof.
  intros H.
  remember (Star r) as r' eqn:Er. remember (c :: s) as cs eqn:Es.
  revert c s Es.
  induction H as [| | | | | | r0 s1 s2 H1 _ H2 IH2]; try discriminate.
  injection Er as ->. intros c s Es.
  destruct s1 as [| c1 s1']; simpl in Es.
  - apply IH2; auto.
  - injection Es as -> <-. eauto.
Qed.

Lemma deriv_lang c r : forall s, lang (deriv c r) s <-> lang r (c :: s).
Proof.
  induction r as [| | p | r1 IH1 r2 IH2 | r1 IH1 r2 IH2 | r IH];
    intros s; simpl.
  - split; intros H; inversion H.
  - split; intros H; inversion H.
  - rewrite lang_class_inv. destruct (p c) eqn:Hp.
    + rewrite lang_empty_inv. split.
      * intros ->. eauto.
      * intros (c' & E & _). now injection E.
    + split; [intros H; inversion H |].
      intros (c' & E & Hc'). injection E as <- _. congruence.
  - assert (Hleft : lang (Seq (deriv c r1) r2) s ->
                    lang (Seq r1 r2) (c :: s)).
    { rewrite !lang_seq_inv. intros (s1 & s2 & -> & H1 & H2).
      exists (c :: s1), s2. rewrite <- IH1. auto. }
    assert (Hright : lang (Seq r1 r2) (c :: s) ->
                     lang (Seq (deriv c r1) r2) s
                     \/ (lang r1 [] /\ lang (deriv c r2) s)).
    { rewrite !lang_seq_inv. intros (s1 & s2 & E & H1 & H2).
      destruct s1 as [| c1 s1']; simpl in E.
      - right. subst s2. rewrite IH2. auto.
      - injection E as <- ->. left. exists s1', s2. rewrite IH1. auto. }
    destruct (nullable r1) eqn:Hn.
    + rewrite lang_or_inv. split.
      * intros [H | H]; [auto |].
        apply lang_seq_inv. exists [], (c :: s).
        rewrite <- IH2, <- nullable_lang. auto.
      * intros H. destruct (Hright H) as [H' | [_ H']]; auto.
    + split; [exact Hleft |].
      intros H. destruct (Hright H) as [H' | [H' _]]; [exact H' |].
      apply nullable_lang in H'. congruence.
  - rewrite !lang_or_inv, IH1, IH2. reflexivity.
  - rewrite lang_seq_inv. split.
    + intros (s1 & s2 & -> & H1 & H2).
      apply IH in H1. exact (lang_star_app r (c :: s1) s2 H1 H2).
    + intros H. apply lang_star_cons in H as (s1 & s2 & -> & H1 & H2).
      exists s1, s2. rewrite IH. auto.
Qed.

Lemma matches_lang s : forall r, matches r s = true <-> lang r s.
Proof.
  induction s as [| c s IH]; intros r; simpl.
  - apply nullable_lang.
  - rewrite IH. apply deriv_lang.
Qed.

Lemma lang_star_class p s :
  lang (Star (Class p)) s <-> Forall (fun c => p c = true) s.
Proof.
  split.
  - induction s as [| c s IH]; intros H; [constructor |].
    apply lang_star_cons in H as (s1 & s2 & -> & H1 & H2).
    apply lang_class_inv in H1 as (c' & E & Hc').
    injection E as -> ->. constructor; auto.
  - induction 1 as [| c s Hc _ IH]; [constructor |].
    apply (lang_star_app (Class p) [c] s); [now constructor | exact IH].
Qed.

Lemma lang_plus_class p s :
  lang (Plus (Class p)) s <-> s <> [] /\ Forall (fun c => p c = true) s.
Proof.
  unfold Plus. rewrite lang_seq_inv. split.
  - intros (s1 & s2 & -> & H1 & H2).
    apply lang_class_inv in H1 as (c & -> & Hc).
    apply lang_star_class in H2. split; [discriminate | constructor; auto].
  - intros [Hne H]. destruct s as [| c s]; [congruence |].
    inversion H; subst. exists [c], s. repeat split.
    + now constructor.
    + now apply lang_star_class.
Qed.

Lemma lang_star_any s : lang (Star Any) s.
Proof. apply lang_star_class. induction s; constructor; auto. Qed.

(** [test] on a pattern anchored at both ends: the whole string. *)
Lemma test_anchored r s : test (Pattern true r true) s = true <-> lang r s.
Proof.
  unfold test; simpl. rewrite matches_lang, lang_seq_inv. split.
  - intros (s1 & s2 & -> & H1 & H2).
    apply lang_empty_inv in H1 as ->.
    apply lang_seq_inv in H2 as (s3 & s4 & -> & H3 & H4).
    apply lang_empty_inv in H4 as ->. now rewrite app_nil_r.
  - intros H. exists [], s. repeat split; [constructor |].
    apply lang_seq_inv. exists s, []. rewrite app_nil_r.
    repeat split; [exact H | constructor].
Qed.

(** [test] on a bare character class: some code unit is in the class. *)
Lemma test_class p s :
  test (Pattern false (Class p) false) s = true
  <-> Exists (fun c => p c = true) s.
Proof.
  unfold test; simpl. rewrite matches_lang, lang_seq_inv, Exists_exists. split.
  - intros (s1 & s2 & -> & _ & H2).
    apply lang_seq_inv in H2 as (s3 & s4 & -> & H3 & _).
    apply lang_class_inv in H3 as (c & -> & Hc).
    exists c. split; [| exact Hc].
    apply in_or_app. right. now left.
  - intros (c & Hin & Hc).
    apply in_split in Hin as (s1 & s2 & ->).
    exists s1, (c :: s2). repeat split; [apply lang_star_any |].
    apply lang_seq_inv. exists [c], s2.
    repeat split; [now constructor | apply lang_star_any].
Qed.

(* ================================================================== *)
(** * validateEmail and validatePassword *)

Lemma plain_iff c : non_space_non_at c = true <-> plain c.
Proof.
  unfold non_space_non_at, plain.
  rewrite negb_true_iff, orb_false_iff, N.eqb_neq. reflexivity.
Qed.

Lemma is_digit_iff c : is_digit c = true <-> ascii_digit c.
Proof.
  unfold is_digit, ascii_digit.
  rewrite andb_true_iff, !N.leb_le. reflexivity.
Qed.

Lemma is_upper_AZ_iff c : is_upper_AZ c = true <-> ascii_upper c.
Proof.
  unfold is_upper_AZ, ascii_upper.
  rewrite andb_true_iff, !N.leb_le. reflexivity.
Qed.

Lemma Forall_equiv {A} (P Q : A -> Prop) (l : list A) :
  (forall x, P x <-> Q x) -> Forall P l <-> Forall Q l.
Proof.
  intros E. split; apply Forall_impl; intros x; apply E.
Qed.

Lemma Exists_equiv {A} (P Q : A -> Prop) (l : list A) :
  (forall x, P x <-> Q x) -> Exists P l <-> Exists Q l.
Proof.
  intros E. split; apply Exists_impl; intros x; apply E.
Qed.

Lemma lang_plus_plain s :
  lang (Plus (Class non_space_non_at)) s <-> s <> [] /\ Forall plain s.
Proof.
  rewrite lang_plus_class.
  now rewrite (Forall_equiv _ plain s plain_iff).
Qed.

Lemma lang_chr c s : lang (Chr c) s <-> s = [c].
Proof.
  unfold Chr. rewrite lang_class_inv. split.
  - intros (c' & -> & E). apply N.eqb_eq in E. now subst.
  - intros ->. exists c. split; [reflexivity | apply N.eqb_refl].
Qed.

Lemma emailRegex_shape s : test emailRegex s = true <-> email_shape s.
Proof.
  unfold emailRegex, email_shape. rewrite test_anchored. split.
  - intros H.
    apply lang_seq_inv in H as (l & s1 & -> & Hl & H).
    apply lang_seq_inv in H as (a & s2 & -> & Ha & H).
    apply lang_seq_inv in H as (d & s3 & -> & Hd & H).
    apply lang_seq_inv in H as (p & t & -> & Hp & Ht).
    apply lang_chr in Ha as ->. apply lang_chr in Hp as ->.
    apply lang_plus_plain in Hl as [? ?].
    apply lang_plus_plain in Hd as [? ?].
    apply lang_plus_plain in Ht as [? ?].
    exists l, d, t. simpl. repeat split; auto.
  - intros (l & d & t & -> & Hl & Hd & Ht & Fl & Fd & Ft).
    apply lang_seq_inv. exists l, (64%N :: d ++ 46%N :: t).
    repeat split; [now apply lang_plus_plain |].
    apply (lang_seq (Chr 64) _ [64%N]); [now apply lang_chr |].
    apply lang_seq; [now apply lang_plus_plain |].
    apply (lang_seq (Chr 46) _ [46%N]); [now apply lang_chr |].
    now apply lang_plus_plain.
Qed.

(** C4.  [validateEmail] is a total function to booleans: it never
    fails.  It returns true exactly on the strings that are, from the
    first to the last code unit, one or more non-whitespace non-[@]
    characters, [@], one or more such characters, a dot, one or more such
    characters; a value that is not a string gives false.
    ["test@example.com"] gives true, ["testexample.com"] and ["test@"]
    give false. *)
Theorem validateEmail_spec :
  (forall v : value,
      validateEmail v = true <->
      typeof v = "string" /\ exists s, v = VString s /\ email_shape s)
  /\ validateEmail (VString (js "test@example.com")) = true
  /\ validateEmail (VString (js "testexample.com")) = false
  /\ validateEmail (VString (js "test@")) = false.
Proof.
  split; [| repeat split; reflexivity].
  intros v. destruct v; simpl;
    try (split; [discriminate | intros (_ & s' & E & _); discriminate]).
  rewrite emailRegex_shape. split.
  - intros H. split; [reflexivity | eauto].
  - intros (_ & s' & E & H). now injection E as <-.
Qed.

Lemma validatePassword_string s :
  validatePassword (VString s) = true <-> strong_password s.
Proof.
  unfold validatePassword, strong_password.
  rewrite <- (Exists_equiv _ ascii_digit s is_digit_iff).
  rewrite <- (Exists_equiv _ ascii_upper s is_upper_AZ_iff).
  rewrite <- !test_class.
  destruct (Nat.ltb_spec (List.length s) 8) as [Hlt | Hge].
  - split; [discriminate | intros [H _]; lia].
  - rewrite andb_true_iff. tauto.
Qed.

(** C3.  [validatePassword] is a total function to booleans: it never
    fails.  It returns true exactly on the strings of length at least 8
    that hold an ASCII digit and an ASCII upper-case letter.
    ["Password1"] gives true; ["Pass1"], ["password123"], ["PASSWORD"]
    and the number 12345678 give false. *)
Theorem validatePassword_spec :
  (forall v : value,
      validatePassword v = true <->
      typeof v = "string" /\ exists s, v = VString s /\ strong_password s)
  /\ validatePassword (VString (js "Password1")) = true
  /\ validatePassword (VString (js "Pass1")) = false
  /\ validatePassword (VString (js "password123")) = false
  /\ validatePassword (VString (js "PASSWORD")) = false
  /\ validatePassword (VNumber (num_of_Z 12345678)) = false.
Proof.
  split; [| repeat split; reflexivity].
  intros v. destruct v;
    try (simpl; split; [discriminate | intros (_ & s' & E & _); discriminate]).
  rewrite validatePassword_string. split.
  - intros H. split; [reflexivity | eauto].
  - intros (_ & s' & E & H). now injection E as <-.
Qed.

(* ================================================================== *)
(** * formatUserName *)

Section FormatUserName.

Variable toUpperCase toLowerCase : jsstring -> jsstring.

Abbreviation format := (formatUserName toUpperCase toLowerCase).

Lemma formatUserName_cons c rest :
  format (VString (c :: rest))
  = Return (VString (toUpperCase [c] ++ toLowerCase rest)).
Proof. reflexivity. Qed.

(** The only exception [formatUserName] raises. *)
Lemma formatUserName_throws v e :
  format v = Throw e -> e = Error "Name must be a non-empty string".
Proof.
  unfold format. destruct v as [| | b | n | [| c s] | l]; simpl;
    intros H; inversion H; reflexivity.
Qed.

Lemma formatUserName_rejects v :
  format v = Throw (Error "Name must be a non-empty string")
  <-> typeof v <> "string" \/ v = VString [].
Proof.
  unfold format.
  destruct v as [| | b | n | [| c s] | l]; simpl;
    (split; [intros H | intros [H | H]]);
    try reflexivity; try discriminate; try congruence;
    try (left; discriminate); auto.
Qed.


End FormatUserName.

(** C9.  [formatUserName] raises ["Name must be a non-empty string"]
    exactly when its argument is not a string or is the empty string; on
    a non-empty string it returns the upper case of the first character
    followed by the lower case of the remaining ones, whatever the case
    conversions of the host.  ["jOHN"] gives ["John"] and ["j"] gives
    ["J"]. *)
Theorem formatUserName_spec :
  (forall (toUpperCase toLowerCase : jsstring -> jsstring) (v : value),
      formatUserName toUpperCase toLowerCase v
      = Throw (Error "Name must be a non-empty string")
      <-> typeof v <> "string" \/ v = VString [])
  /\ (forall (toUpperCase toLowerCase : jsstring -> jsstring) c rest,
      formatUserName toUpperCase toLowerCase (VString (c :: rest))
      = Return (VString (toUpperCase [c] ++ toLowerCase rest)))
  /\ formatUserName latin1_toUpperCase latin1_toLowerCase (VString (js "jOHN"))
     = Return (VString (js "John"))
  /\ formatUserName latin1_toUpperCase latin1_toLowerCase (VString (js "j"))
     = Return (VString (js "J")).
Proof.
  split; [| split; [| split; reflexivity]].
  - intros U L v. apply formatUserName_rejects.
  - intros U L c rest. apply formatUserName_cons.
Qed.

(** ** Case conversion on the Latin-1 range *)

Ltac case_bools :=
  repeat match goal with
         | |- context [if ?b then _ else _] => destruct b eqn:?
         end.




Lemma latin1_toUpperCase_unit c : latin1_toUpperCase [c] = upper_unit c.
Proof. unfold latin1_toUpperCase. simpl. apply app_nil_r. Qed.




(* ================================================================== *)
(** * Numbers: order *)

Lemma num_ge_not_lt a b : num_ge a b = true -> num_lt a b = false.
Proof.
  destruct a as [| [|] | x], b as [| [|] | y]; simpl;
    try reflexivity; try discriminate.
  rewrite Qle_bool_iff. intros H.
  destruct (Qlt_le_dec x y) as [Hlt | _]; [| reflexivity].
  exfalso. exact (Qlt_not_le _ _ Hlt H).
Qed.

(* ================================================================== *)
(** * createUser *)

Lemma bad_age_iff (age : value) :
  match age with
  | VNumber a => num_lt a (num_of_Z 0) || num_gt a (num_of_Z 150)
  | _ => true
  end = true
  <-> invalid_age age.
Proof.
  unfold invalid_age.
  destruct age as [| | b | a | s | l]; simpl;
    try (split; [intros _; left; discriminate | reflexivity]).
  rewrite orb_true_iff. split.
  - intros H. right. eauto.
  - intros [H | (a' & E & H)]; [congruence |]. now injection E as <-.
Qed.

Section CreateUser.

Variable toUpperCase toLowerCase : jsstring -> jsstring.

(** The input mapping: an object at location [l]. *)
Variables (w : world) (l : loc) (props : list (string * value)).
Hypothesis mapping : nth_error (heap w) l = Some (CObject props).

Abbreviation email := (lookup "email" props).
Abbreviation password := (lookup "password" props).
Abbreviation name := (lookup "name" props).
Abbreviation age := (lookup "age" props).
Abbreviation create := (createUser toUpperCase toLowerCase (VRef l) w).
Abbreviation format_name := (formatUserName toUpperCase toLowerCase name).

Ltac read_fields := unfold createUser, get; rewrite mapping; cbn [bind].

Lemma createUser_bad_email :
  validateEmail email = false -> create = Throw (Error "Invalid email").
Proof. intros H. read_fields. now rewrite H. Qed.

Lemma createUser_bad_password :
  validateEmail email = true -> validatePassword password = false ->
  create = Throw (Error "Invalid password").
Proof. intros H1 H2. read_fields. now rewrite H1, H2. Qed.

Lemma createUser_bad_age :
  validateEmail email = true -> validatePassword password = true ->
  invalid_age age ->
  create = Throw (Error "Invalid age").
Proof.
  intros H1 H2 H3. apply bad_age_iff in H3.
  read_fields. now rewrite H1, H2, H3.
Qed.

(** Past the three checks, the outcome is that of formatting the name;
    on success the record is allocated. *)
Lemma createUser_checked :
  validateEmail email = true -> validatePassword password = true ->
  ~ invalid_age age ->
  create =
  (formatted <- format_name;;
   Return (alloc (CObject [("email", email);
                           ("name", formatted);
                           ("age", age);
                           ("createdAt", VString (clock w))]) w)).
Proof.
  intros H1 H2 H3. rewrite <- bad_age_iff in H3.
  apply not_true_is_false in H3.
  read_fields. now rewrite H1, H2, H3.
Qed.

(** C2.  The checks run in the order email, password, age and stop at
    the first that fails; the error of [formatUserName] reaches the
    caller, as it is, exactly when the three checks have passed and the
    formatting of the name raises it. *)
Theorem createUser_validation_order :
  (validateEmail email = false -> create = Throw (Error "Invalid email"))
  /\ (validateEmail email = true -> validatePassword password = false ->
      create = Throw (Error "Invalid password"))
  /\ (validateEmail email = true -> validatePassword password = true ->
      invalid_age age ->
      create = Throw (Error "Invalid age"))
  /\ (create = Throw (Error "Name must be a non-empty string")
      <-> validateEmail email = true
          /\ validatePassword password = true
          /\ ~ invalid_age age
          /\ format_name = Throw (Error "Name must be a non-empty string")).
Proof.
  split; [exact createUser_bad_email |].
  split; [exact createUser_bad_password |].
  split; [exact createUser_bad_age |].
  split.
  - intros H.
    destruct (validateEmail email) eqn:H1;
      [| rewrite createUser_bad_email in H by assumption; discriminate].
    destruct (validatePassword password) eqn:H2;
      [| rewrite createUser_bad_password in H by assumption; discriminate].
    assert (H3 : ~ invalid_age age).
    { intros H3. rewrite createUser_bad_age in H by assumption.
      discriminate. }
    repeat split; auto.
    rewrite createUser_checked in H by assumption.
    destruct format_name as [v | e |] eqn:E; simpl in H;
      try discriminate.
    apply formatUserName_throws in E. now subst e.
  - intros (H1 & H2 & H3 & H4).
    rewrite createUser_checked by assumption. now rewrite H4.
Qed.

(** C8.  With a valid email and a valid password, [createUser] raises
    ["Invalid age"] exactly when the age is not numeric, is less than 0
    or is greater than 150; the ages 0 and 150 are accepted. *)
Theorem createUser_invalid_age :
  validateEmail email = true -> validatePassword password = true ->
  (create = Throw (Error "Invalid age") <-> invalid_age age)
  /\ (age = num 0 \/ age = num 150 ->
      create <> Throw (Error "Invalid age")).
Proof.
  intros H1 H2.
  assert (Hiff : create = Throw (Error "Invalid age") <-> invalid_age age).
  { split; [| now apply createUser_bad_age].
    intros H. destruct (bad_age_iff age) as [Hb _].
    destruct (match age with
              | VNumber a => num_lt a (num_of_Z 0) || num_gt a (num_of_Z 150)
              | _ => true
              end) eqn:E; [now apply Hb |].
    exfalso.
    assert (H3 : ~ invalid_age age).
    { rewrite <- bad_age_iff, E. discriminate. }
    rewrite createUser_checked in H by assumption.
    destruct format_name as [v | e |] eqn:Ef; simpl in H;
      try discriminate.
    apply formatUserName_throws in Ef. subst e. discriminate. }
  split; [exact Hiff |].
  intros Hb Hthrow. apply Hiff in Hthrow.
  destruct Hthrow as [Ht | (a & E & Ha)].
  - destruct Hb as [Hb | Hb]; apply Ht; rewrite Hb; reflexivity.
  - destruct Hb as [Hb | Hb]; rewrite Hb in E;
      injection E as <-; destruct Ha as [Ha | Ha]; discriminate.
Qed.

(** C1.  With a valid email, a valid password, an age that is a number
    in [0,150] and a name that is a non-empty string, [createUser]
    returns a record at a new location: its [email] and [age] are those
    of the input, its [name] is what [formatUserName] returns on the
    input name, its [createdAt] is the reading of the clock in the state
    of the call. *)
Theorem createUser_success (a : number) (c : code_unit) (rest : jsstring) :
  validateEmail email = true ->
  validatePassword password = true ->
  age = VNumber a ->
  num_ge a (num_of_Z 0) = true -> num_ge (num_of_Z 150) a = true ->
  name = VString (c :: rest) ->
  exists (user : loc) (w' : world) (formatted : value),
    create = Return (VRef user, w')
    /\ nth_error (heap w) user = None
    /\ format_name = Return formatted
    /\ get w' (VRef user) "email" = Return email
    /\ get w' (VRef user) "name" = Return formatted
    /\ get w' (VRef user) "age" = Return (VNumber a)
    /\ get w' (VRef user) "createdAt" = Return (VString (clock w)).
Proof.
  intros H1 H2 Ha H0 H150 Hn.
  assert (H3 : ~ invalid_age age).
  { rewrite Ha. intros [Ht | (a' & E & [Hlt | Hgt])].
    - now apply Ht.
    - injection E as <-. apply num_ge_not_lt in H0. congruence.
    - injection E as <-. apply num_ge_not_lt in H150.
      unfold num_gt in Hgt. congruence. }
  rewrite createUser_checked by assumption.
  rewrite Hn, formatUserName_cons. cbn [bind alloc].
  eexists _, _, _. split; [reflexivity |].
  split; [apply nth_error_None; apply Nat.le_refl |].
  split; [reflexivity |].
  unfold get. cbn [heap].
  rewrite nth_error_app2 by apply Nat.le_refl.
  rewrite Nat.sub_diag. cbn [nth_error].
  rewrite Ha. repeat split; reflexivity.
Qed.

End CreateUser.

(** The valid user data of the tests: the record has the email and the
    age of the input, the name ["John"] and the reading of the clock. *)
Lemma createUser_success_witness :
  exists (user : loc) (w' : world) (formatted : value),
    createUser latin1_toUpperCase latin1_toLowerCase (VRef 0%nat) valid_user_data
    = Return (VRef user, w')
    /\ nth_error (heap valid_user_data) user = None
    /\ formatUserName latin1_toUpperCase latin1_toLowerCase
         (VString (js "john")) = Return formatted
    /\ get w' (VRef user) "email" = Return (VString (js "test@example.com"))
    /\ get w' (VRef user) "name" = Return formatted
    /\ get w' (VRef user) "age" = Return (num 25)
    /\ get w' (VRef user) "createdAt"
       = Return (VString (clock valid_user_data)).
Proof.
  exact (createUser_success latin1_toUpperCase latin1_toLowerCase
           valid_user_data 0%nat _ eq_refl
           (num_of_Z 25) 106%N (js "ohn")
           eq_refl eq_refl eq_refl eq_refl eq_refl eq_refl).
Defined.

(** The password ["weak"] is reported although name and age are fine. *)
Lemma createUser_validation_order_witness :
  createUser latin1_toUpperCase latin1_toLowerCase (VRef 0%nat) weak_password_data
  = Throw (Error "Invalid password").
Proof.
  apply (proj1 (proj2 (createUser_validation_order
                         latin1_toUpperCase latin1_toLowerCase
                         weak_password_data 0%nat _ eq_refl)));
    reflexivity.
Defined.

(** The age 200 is refused. *)
Lemma createUser_invalid_age_witness :
  createUser latin1_toUpperCase latin1_toLowerCase (VRef 0%nat) age_200_data
  = Throw (Error "Invalid age").
Proof.
  apply (proj1 (createUser_invalid_age
                  latin1_toUpperCase latin1_toLowerCase
                  age_200_data 0%nat _ eq_refl eq_refl eq_refl)).
  right. exists (num_of_Z 200). split; [reflexivity |].
  right. reflexivity.
Defined.

(* ================================================================== *)
(** * filterUsersByAge *)

Lemma get_age w v a :
  age_of w v = Some a -> get w v "age" = Return (VNumber a).
Proof.
  unfold age_of, get.
  destruct v as [| | b | n | s | l]; try discriminate.
  destruct (nth_error (heap w) l) as [[props | elems] |]; try discriminate.
  destruct (lookup "age" props); try discriminate.
  now intros [= ->].
Qed.


Lemma js_ge_number_throws v m e : js_ge v (VNumber m) <> Throw e.
Proof. destruct v; discriminate. Qed.

(** Reading a property raises nothing but a [TypeError]. *)
Lemma get_throws w v k e : get w v k = Throw e -> e = TypeError.
Proof.
  unfold get. destruct v as [| | b | n | s | l]; try discriminate;
    try (now intros [= <-]).
  destruct (nth_error (heap w) l) as [[props | elems] |]; discriminate.
Qed.

Lemma array_filter_throws w m elems e :
  array_filter (fun user => age <- get w user "age";; js_ge age (VNumber m))
    elems = Throw e ->
  e = TypeError.
Proof.
  induction elems as [| v elems IH]; simpl; [discriminate |].
  destruct (get w v "age") as [a | e' |] eqn:Eg; simpl; try discriminate.
  - destruct (js_ge a (VNumber m)) as [keep | e' |] eqn:Ec; simpl;
      try discriminate.
    + destruct (array_filter _ elems) as [kept | e' |]; simpl;
        try discriminate.
      intros [= <-]. now apply IH.
    + now apply js_ge_number_throws in Ec.
  - intros [= <-]. now apply get_throws in Eg.
Qed.

Lemma array_filter_users w m elems :
  forallb (user_like w) elems = true ->
  array_filter (fun user => age <- get w user "age";; js_ge age (VNumber m))
    elems
  = Return (aged_at_least w m elems).
Proof.
  unfold aged_at_least.
  induction elems as [| v elems IH]; simpl; [reflexivity |].
  rewrite andb_true_iff. intros [Hv Hrest]. rewrite (IH Hrest).
  unfold user_like in Hv. unfold get, age_of.
  destruct v as [| | b | n | s | l]; try discriminate.
  destruct (nth_error (heap w) l) as [[props | arr] |]; try discriminate.
  destruct (lookup "age" props) as [| | b | a | s | l']; try discriminate;
    simpl; [reflexivity |].
  now destruct (num_ge a m).
Qed.

(** Allocation leaves every cell of the heap as it was. *)
Lemma alloc_preserves c w l c' :
  nth_error (heap w) l = Some c' ->
  nth_error (heap (snd (alloc c w))) l = Some c'.
Proof.
  intros H. simpl. rewrite nth_error_app1; [exact H |].
  apply nth_error_Some. congruence.
Qed.

Lemma alloc_preserves_array c w v elems :
  array_elems w v = Some elems ->
  array_elems (snd (alloc c w)) v = Some elems.
Proof.
  unfold array_elems. destruct v as [| | b | n | s | l]; try discriminate.
  destruct (nth_error (heap w) l) as [c' |] eqn:E; [| discriminate].
  now rewrite (alloc_preserves c w l c' E).
Qed.

Lemma alloc_fresh c w :
  nth_error (heap w) (List.length (heap w)) = None
  /\ nth_error (heap (snd (alloc c w))) (List.length (heap w)) = Some c.
Proof.
  split.
  - apply nth_error_None. apply Nat.le_refl.
  - simpl. rewrite nth_error_app2 by apply Nat.le_refl.
    now rewrite Nat.sub_diag.
Qed.

(** C6.  For an array of user-like mappings (objects whose age is a
    number, or absent) and a number [minAge >= 0], [filterUsersByAge]
    returns an array at a new location that holds, in their order, the
    elements whose age is at least [minAge]; every cell of the heap, the
    input array among them, is as it was.  On the four users of the
    tests, [minAge] 0 keeps all four and [minAge] 100 none. *)
Theorem filterUsersByAge_spec :
  (forall (w : world) (users : value) (elems : list value) (m : number),
      array_elems w users = Some elems ->
      forallb (user_like w) elems = true ->
      num_ge m (num_of_Z 0) = true ->
      exists (kept : loc) (w' : world),
        filterUsersByAge users (VNumber m) w = Return (VRef kept, w')
        /\ nth_error (heap w) kept = None
        /\ array_elems w' (VRef kept) = Some (aged_at_least w m elems)
        /\ (forall l c, nth_error (heap w) l = Some c ->
                        nth_error (heap w') l = Some c)
        /\ array_elems w' users = Some elems)
  /\ (exists (kept : loc) (w' : world),
        filterUsersByAge (VRef 4%nat) (num 0) four_users
        = Return (VRef kept, w')
        /\ array_elems w' (VRef kept)
           = Some [VRef 0%nat; VRef 1%nat; VRef 2%nat; VRef 3%nat])
  /\ (exists (kept : loc) (w' : world),
        filterUsersByAge (VRef 4%nat) (num 100) four_users
        = Return (VRef kept, w')
        /\ array_elems w' (VRef kept) = Some []).
Proof.
  split; [| split; eexists _, _; split; reflexivity].
  intros w users elems m Harr Husers Hm.
  unfold filterUsersByAge. rewrite Harr.
  rewrite (num_ge_not_lt _ _ Hm).
  rewrite (array_filter_users w m elems Husers). cbn [bind].
  set (c := CArray (aged_at_least w m elems)).
  exists (List.length (heap w)), (snd (alloc c w)).
  destruct (alloc_fresh c w) as [Hnew Hat].
  split; [reflexivity |]. split; [exact Hnew |].
  split; [unfold array_elems; now rewrite Hat |].
  split; [intros l c'; apply alloc_preserves |].
  now apply alloc_preserves_array.
Qed.

(** With [minAge] 18 the four users of the tests leave Alice and
    Charlie. *)
Lemma filterUsersByAge_spec_witness :
  exists (kept : loc) (w' : world),
    filterUsersByAge (VRef 4%nat) (num 18) four_users = Return (VRef kept, w')
    /\ nth_error (heap four_users) kept = None
    /\ array_elems w' (VRef kept) = Some [VRef 0%nat; VRef 2%nat]
    /\ (forall l c, nth_error (heap four_users) l = Some c ->
                    nth_error (heap w') l = Some c)
    /\ array_elems w' (VRef 4%nat)
       = Some [VRef 0%nat; VRef 1%nat; VRef 2%nat; VRef 3%nat].
Proof.
  exact (proj1 filterUsersByAge_spec four_users (VRef 4%nat) _
           (num_of_Z 18) eq_refl eq_refl eq_refl).
Defined.

(** C7, as stated, fails: NaN is not a number that is at least 0, and
    [filterUsersByAge] takes it as [minAge] and returns. *)
Lemma filterUsersByAge_accepts_NaN :
  ~ non_negative_number (VNumber NaN)
  /\ filterUsersByAge (VRef 0%nat) (VNumber NaN) no_users
     = Return (VRef 1%nat, World [CArray []; CArray []] (clock no_users))
  /\ ~ (filterUsersByAge (VRef 0%nat) (VNumber NaN) no_users
        = Throw (Error "MinAge must be a positive number")
        <-> ~ non_negative_number (VNumber NaN)).
Proof.
  assert (H : ~ non_negative_number (VNumber NaN)).
  { intros (m & E & Hm). injection E as <-. discriminate. }
  split; [exact H |]. split; [reflexivity |].
  intros [_ Hiff]. specialize (Hiff H). discriminate.
Qed.

(** C7, amended.  On an array, [filterUsersByAge] raises ["MinAge must
    be a positive number"] exactly when [minAge] is not of type number
    or is less than 0.  Zero is accepted; so is NaN, which is of type
    number and not less than 0. *)
Theorem filterUsersByAge_minAge_guard
    (w : world) (users : value) (elems : list value) (minAge : value) :
  array_elems w users = Some elems ->
  (filterUsersByAge users minAge w
   = Throw (Error "MinAge must be a positive number")
   <-> rejected_minAge minAge)
  /\ (minAge = num 0 \/ minAge = VNumber NaN ->
      filterUsersByAge users minAge w
      <> Throw (Error "MinAge must be a positive number")).
Proof.
  intros Harr.
  assert (Hiff : filterUsersByAge users minAge w
                 = Throw (Error "MinAge must be a positive number")
                 <-> rejected_minAge minAge).
  { unfold filterUsersByAge, rejected_minAge. rewrite Harr.
    destruct minAge as [| | b | m | s | l];
      try (split; [intros _; left; discriminate | reflexivity]).
    destruct (num_lt m (num_of_Z 0)) eqn:Hlt.
    - split; [| reflexivity]. intros _. right. eauto.
    - split.
      + destruct (array_filter _ elems) as [kept | e |] eqn:Ef; simpl;
          try discriminate.
        intros [= ->]. apply array_filter_throws in Ef. discriminate.
      + intros [Ht | (m' & E & Hm')]; [now elim Ht |].
        injection E as <-. congruence. }
  split; [exact Hiff |].
  intros Hv Hthrow. apply Hiff in Hthrow.
  destruct Hthrow as [Ht | (m & E & Hm)].
  - destruct Hv as [Hv | Hv]; apply Ht; rewrite Hv; reflexivity.
  - destruct Hv as [Hv | Hv]; rewrite Hv in E; injection E as <-;
      discriminate.
Qed.

(** The [minAge] -1 is refused on the four users of the tests. *)
Lemma filterUsersByAge_minAge_guard_witness :
  filterUsersByAge (VRef 4%nat) (num (-1)) four_users
  = Throw (Error "MinAge must be a positive number").
Proof.
  apply (proj1 (filterUsersByAge_minAge_guard
                  four_users (VRef 4%nat) _ (num (-1)) eq_refl)).
  right. exists (num_of_Z (-1)). split; reflexivity.
Defined.

(* ================================================================== *)
(** * calculateAverageAge *)

Local Open Scope Q_scope.

Lemma Qfloor_unique (z : Q) (n : Z) :
  inject_Z n <= z -> z < inject_Z n + 1 -> Qfloor z = n.
Proof.
  intros Hle Hlt.
  assert (H1 : (n <= Qfloor z)%Z).
  { rewrite <- (Qfloor_Z n). now apply Qfloor_resp_le. }
  assert (H2 : (Qfloor z < n + 1)%Z).
  { rewrite Zlt_Qlt, inject_Z_plus.
    apply Qle_lt_trans with z; [apply Qfloor_le | exact Hlt]. }
  lia.
Qed.




(** The sum [reduce] builds over mappings with finite ages. *)
Lemma array_reduce_finite w elems qs :
  Forall2 (has_finite_age w) elems qs ->
  forall acc : number,
    array_reduce (fun sum user => age <- get w user "age";; js_add sum age)
      elems (VNumber acc)
    = Return (VNumber (fold_left num_add (map Fin qs) acc)).
Proof.
  induction 1 as [| v q elems qs Hv _ IH]; intros acc; [reflexivity |].
  cbn [array_reduce map fold_left].
  rewrite (get_age _ _ _ Hv). cbn [bind js_add ToNumber].
  apply IH.
Qed.


Lemma calculateAverageAge_value w users elems qs :
  array_elems w users = Some elems -> elems <> [] ->
  Forall2 (has_finite_age w) elems qs ->
  calculateAverageAge users w
  = Return (VNumber (num_div (Math_round (scaled_mean qs)) (num_of_Z 100)),
            w).
Proof.
  intros Harr Hne Hages.
  unfold calculateAverageAge. rewrite Harr.
  destruct elems as [| v elems']; [congruence |].
  cbv beta iota. remember (v :: elems') as elems eqn:Eelems.
  rewrite (array_reduce_finite w elems qs Hages).
  cbn [bind js_div js_mul ToNumber].
  unfold scaled_mean, binary64_sum.
  now rewrite (Forall2_length Hages).
Qed.





(** The arithmetic is that of binary64: 23 users of age 1 and 17 of age
    0 give 0.57, since [(23/40)*100] is just below 57.5; the ages [2^53]
    and 1 give [2^52], since [2^53 + 1] rounds to [2^53]; one user of
    age [2^1020] gives +Infinity, since the product by 100 overflows. *)
Lemma calculateAverageAge_binary64_examples :
  calculateAverageAge (VRef 2%nat) forty_users
  = Return (VNumber (round64 (57 # 100)), forty_users)
  /\ calculateAverageAge (VRef 2%nat) two_large_users
     = Return (num (2 ^ 52), two_large_users)
  /\ calculateAverageAge (VRef 1%nat) huge_user
     = Return (VNumber (Inf false), huge_user).
Proof.
  repeat split; vm_compute; reflexivity.
Qed.



Local Close Scope Q_scope.

(* ================================================================== *)
(** * Further properties: the validators *)

Lemma count_at_plain (s : jsstring) :
  Forall plain s -> count_occ N.eq_dec s 64%N = 0%nat.
Proof.
  induction 1 as [| c s [_ Hc] _ IH]; [reflexivity |].
  rewrite count_occ_cons_neq; assumption.
Qed.

Lemma plain_no_space (s : jsstring) :
  Forall plain s -> Forall (fun c => is_white_space c = false) s.
Proof. apply Forall_impl. now intros c [H _]. Qed.

Lemma nonempty_length {A} (l : list A) : l <> [] -> (1 <= List.length l)%nat.
Proof. destruct l; [congruence | simpl; lia]. Qed.

(** X1.  A string [validateEmail] accepts holds exactly one [@], holds
    no whitespace and has at least 5 code units. *)
Theorem validateEmail_necessary (s : jsstring) :
  validateEmail (VString s) = true ->
  count_occ N.eq_dec s 64%N = 1%nat
  /\ Forall (fun c => is_white_space c = false) s
  /\ (5 <= List.length s)%nat.
Proof.
  simpl. rewrite emailRegex_shape.
  intros (l & d & t & -> & Hl & Hd & Ht & Fl & Fd & Ft).
  split; [| split].
  - rewrite count_occ_app, count_occ_cons_eq by reflexivity.
    rewrite count_occ_app, count_occ_cons_neq by discriminate.
    now rewrite !count_at_plain.
  - apply Forall_app. split; [now apply plain_no_space |].
    constructor; [reflexivity |].
    apply Forall_app. split; [now apply plain_no_space |].
    constructor; [reflexivity | now apply plain_no_space].
  - apply nonempty_length in Hl, Hd, Ht.
    rewrite length_app. simpl. rewrite length_app. simpl. lia.
Qed.

Lemma validateEmail_necessary_witness :
  count_occ N.eq_dec (js "test@example.com") 64%N = 1%nat
  /\ Forall (fun c => is_white_space c = false) (js "test@example.com")
  /\ (5 <= List.length (js "test@example.com"))%nat.
Proof.
  apply (validateEmail_necessary (js "test@example.com")). reflexivity.
Defined.

(** X2.  An accepted email stays accepted when a non-whitespace,
    non-[@] character is put in front of it or behind it: there is no
    bound on its length and a trailing dot is accepted. *)
Theorem validateEmail_extend (s : jsstring) (c : code_unit) :
  validateEmail (VString s) = true -> plain c ->
  validateEmail (VString (c :: s)) = true
  /\ validateEmail (VString (s ++ [c])) = true.
Proof.
  simpl. rewrite !emailRegex_shape.
  intros (l & d & t & -> & Hl & Hd & Ht & Fl & Fd & Ft) Hc. split.
  - exists (c :: l), d, t.
    repeat split; auto; try discriminate; now constructor.
  - exists l, d, (t ++ [c]). repeat split; auto.
    + rewrite <- app_assoc. simpl. now rewrite <- app_assoc.
    + intros E. now apply app_eq_nil in E as [_ E].
    + apply Forall_app. split; [assumption | now constructor].
Qed.

Lemma validateEmail_extend_witness :
  validateEmail (VString (46%N :: js "test@example.com")) = true
  /\ validateEmail (VString (js "test@example.com" ++ [46%N])) = true.
Proof.
  apply (validateEmail_extend (js "test@example.com") 46%N).
  - reflexivity.
  - split; [reflexivity | discriminate].
Defined.

(** X3.  An accepted password stays accepted whatever is put in front of
    it and behind it: no character is forbidden and there is no upper
    bound on the length. *)
Theorem validatePassword_extend (p s q : jsstring) :
  validatePassword (VString s) = true ->
  validatePassword (VString (p ++ s ++ q)) = true.
Proof.
  rewrite !validatePassword_string. unfold strong_password.
  intros (Hlen & Hd & Hu). repeat split.
  - rewrite !length_app. lia.
  - apply Exists_app. right. apply Exists_app. now left.
  - apply Exists_app. right. apply Exists_app. now left.
Qed.

Lemma validatePassword_extend_witness :
  validatePassword (VString (js " " ++ js "Password1" ++ js "@@")) = true.
Proof.
  apply (validatePassword_extend (js " ") (js "Password1") (js "@@")).
  reflexivity.
Defined.

(* ================================================================== *)
(** * Further properties: filterUsersByAge *)

Lemma num_ge_NaN_r a : num_ge a NaN = false.
Proof. now destruct a as [| [|] | x]. Qed.

Lemma num_ge_trans a b c :
  num_ge a b = true -> num_ge b c = true -> num_ge a c = true.
Proof.
  destruct a as [| [|] | x], b as [| [|] | y], c as [| [|] | z]; simpl;
    try reflexivity; try discriminate.
  rewrite !Qle_bool_iff. intros H1 H2. exact (Qle_trans _ _ _ H2 H1).
Qed.

Lemma user_like_not_nullish w v : user_like w v = true -> is_nullish v = false.
Proof. now destruct v. Qed.

(** The callback of [filter] on a user-like mapping. *)
Lemma callback_user_like w m v :
  user_like w v = true ->
  (age <- get w v "age";; js_ge age (VNumber m))
  = Return (match age_of w v with
            | Some a => num_ge a m
            | None => false
            end).
Proof.
  unfold user_like, get, age_of.
  destruct v as [| | b | n | s | l]; try discriminate.
  destruct (nth_error (heap w) l) as [[props | arr] |]; try discriminate.
  now destruct (lookup "age" props) as [| | b | a | s | l'].
Qed.

Lemma array_filter_mixed w m elems :
  forallb (fun v => user_like w v || is_nullish v) elems = true ->
  array_filter (fun user => age <- get w user "age";; js_ge age (VNumber m))
    elems
  = if existsb is_nullish elems
    then Throw TypeError
    else Return (aged_at_least w m elems).
Proof.
  unfold aged_at_least.
  induction elems as [| v elems IH]; [reflexivity |].
  cbn [forallb existsb array_filter filter].
  rewrite andb_true_iff. intros [Hv Hrest]. rewrite (IH Hrest).
  destruct (user_like w v) eqn:Hu.
  - rewrite (callback_user_like w m v Hu), (user_like_not_nullish w v Hu).
    cbn [bind orb].
    destruct (existsb is_nullish elems); [reflexivity |].
    cbn [bind]. now destruct (age_of w v) as [a |]; [destruct (num_ge a m) |].
  - simpl in Hv. rewrite Hv. now destruct v.
Qed.

Lemma filterUsersByAge_returns w users elems m :
  array_elems w users = Some elems ->
  forallb (user_like w) elems = true ->
  num_lt m (num_of_Z 0) = false ->
  filterUsersByAge users (VNumber m) w
  = Return (alloc (CArray (aged_at_least w m elems)) w).
Proof.
  intros Harr Husers Hm. unfold filterUsersByAge.
  now rewrite Harr, Hm, (array_filter_users w m elems Husers).
Qed.

(** X4.  [filterUsersByAge] raises ["Users must be an array"] exactly
    when [users] is not an array, whatever [minAge] is: this check comes
    before the one of [minAge]. *)
Theorem filterUsersByAge_users_guard (w : world) (users minAge : value) :
  filterUsersByAge users minAge w = Throw (Error "Users must be an array")
  <-> isArray w users = false.
Proof.
  unfold filterUsersByAge, isArray.
  destruct (array_elems w users) as [elems |]; [| split; reflexivity].
  split; [| discriminate].
  destruct minAge as [| | b | m | s | l]; try discriminate.
  destruct (num_lt m (num_of_Z 0)); [discriminate |].
  destruct (array_filter _ elems) as [kept | e |] eqn:Ef; simpl;
    try discriminate.
  intros [= ->]. apply array_filter_throws in Ef. discriminate.
Qed.

(** X5.  On an array whose elements are user-like mappings, [null] or
    [undefined], with an accepted [minAge], [filterUsersByAge] ends in a
    [TypeError] exactly when some element is [null] or [undefined]. *)
Theorem filterUsersByAge_type_error
    (w : world) (users : value) (elems : list value) (m : number) :
  array_elems w users = Some elems ->
  forallb (fun v => user_like w v || is_nullish v) elems = true ->
  num_lt m (num_of_Z 0) = false ->
  (filterUsersByAge users (VNumber m) w = Throw TypeError
   <-> existsb is_nullish elems = true).
Proof.
  intros Harr Helems Hm. unfold filterUsersByAge.
  rewrite Harr, Hm, (array_filter_mixed w m elems Helems).
  destruct (existsb is_nullish elems); simpl; split;
    try reflexivity; discriminate.
Qed.

Lemma filterUsersByAge_type_error_witness :
  filterUsersByAge (VRef 0%nat) (num 0) null_user = Throw TypeError
  <-> existsb is_nullish [VNull] = true.
Proof.
  exact (filterUsersByAge_type_error null_user (VRef 0%nat) [VNull]
           (num_of_Z 0) eq_refl eq_refl eq_refl).
Defined.

Lemma user_like_valid w v :
  user_like w v = true ->
  exists l props, v = VRef l /\ nth_error (heap w) l = Some (CObject props).
Proof.
  unfold user_like. destruct v as [| | b | n | s | l]; try discriminate.
  destruct (nth_error (heap w) l) as [[props | arr] |] eqn:E;
    try discriminate.
  intros _. exists l, props. split; [reflexivity | exact E].
Qed.

(** Allocation changes neither who is user-like nor the ages. *)
Lemma alloc_user_like c w v :
  user_like w v = true ->
  user_like (snd (alloc c w)) v = true
  /\ age_of (snd (alloc c w)) v = age_of w v.
Proof.
  intros Hu. destruct (user_like_valid w v Hu) as (l & props & -> & Hl).
  unfold user_like, age_of in *.
  rewrite (alloc_preserves c w l _ Hl). rewrite Hl in *. auto.
Qed.

Lemma aged_at_least_user_like w m elems :
  forallb (user_like w) elems = true ->
  forallb (user_like w) (aged_at_least w m elems) = true.
Proof.
  rewrite !forallb_forall. unfold aged_at_least.
  intros H v Hv. apply filter_In in Hv as [Hv _]. auto.
Qed.

Lemma aged_at_least_twice c w m m' elems :
  forallb (user_like w) elems = true ->
  num_ge m' m = true ->
  aged_at_least (snd (alloc c w)) m' (aged_at_least w m elems)
  = aged_at_least w m' elems.
Proof.
  intros Hu Hm. unfold aged_at_least.
  induction elems as [| v elems IH]; [reflexivity |].
  simpl in Hu. apply andb_true_iff in Hu as [Hv Hrest].
  destruct (alloc_user_like c w v Hv) as [_ Hage].
  cbn [filter].
  destruct (age_of w v) as [a |] eqn:Ea.
  - destruct (num_ge a m') eqn:H'.
    + rewrite (num_ge_trans a m' m H' Hm). cbn [filter].
      rewrite Hage, H'. now rewrite (IH Hrest).
    + destruct (num_ge a m); [| exact (IH Hrest)].
      cbn [filter]. rewrite Hage, H'. exact (IH Hrest).
  - exact (IH Hrest).
Qed.

(** X6.  Filtering with [minAge] and then filtering the result with a
    [minAge'] that is at least [minAge] gives, in a second new array, the
    elements that filtering the input with [minAge'] keeps; with
    [minAge' = minAge] the second array holds what the first holds. *)
Theorem filterUsersByAge_twice
    (w : world) (users : value) (elems : list value) (m m' : number) :
  array_elems w users = Some elems ->
  forallb (user_like w) elems = true ->
  num_ge m (num_of_Z 0) = true ->
  num_ge m' m = true ->
  exists (first second : loc) (w1 w2 : world),
    filterUsersByAge users (VNumber m) w = Return (VRef first, w1)
    /\ filterUsersByAge (VRef first) (VNumber m') w1
       = Return (VRef second, w2)
    /\ second <> first
    /\ array_elems w2 (VRef first) = Some (aged_at_least w m elems)
    /\ array_elems w2 (VRef second) = Some (aged_at_least w m' elems).
Proof.
  intros Harr Hu Hm Hm'.
  pose proof (num_ge_not_lt _ _ Hm) as Hlt.
  pose proof (num_ge_not_lt _ _ (num_ge_trans _ _ _ Hm' Hm)) as Hlt'.
  set (c := CArray (aged_at_least w m elems)).
  set (w1 := snd (alloc c w)).
  assert (Hfirst : array_elems w1 (VRef (List.length (heap w)))
                   = Some (aged_at_least w m elems)).
  { unfold array_elems, w1. now rewrite (proj2 (alloc_fresh c w)). }
  assert (Hu1 : forallb (user_like w1) (aged_at_least w m elems) = true).
  { apply forallb_forall. intros v Hv.
    apply (alloc_user_like c w v).
    pose proof (aged_at_least_user_like w m elems Hu) as H.
    rewrite forallb_forall in H. auto. }
  set (c2 := CArray (aged_at_least w1 m' (aged_at_least w m elems))).
  exists (List.length (heap w)), (List.length (heap w1)), w1,
    (snd (alloc c2 w1)).
  split; [exact (filterUsersByAge_returns w users elems m Harr Hu Hlt) |].
  split; [exact (filterUsersByAge_returns w1 _ _ m' Hfirst Hu1 Hlt') |].
  split; [unfold w1; simpl; rewrite length_app; simpl; lia |].
  split; [now apply alloc_preserves_array |].
  unfold array_elems. rewrite (proj2 (alloc_fresh c2 w1)).
  unfold c2, w1. now rewrite aged_at_least_twice.
Qed.

(** On the four users of the tests: [minAge] 17, then 18. *)
Lemma filterUsersByAge_twice_witness :
  exists (first second : loc) (w1 w2 : world),
    filterUsersByAge (VRef 4%nat) (num 17) four_users
    = Return (VRef first, w1)
    /\ filterUsersByAge (VRef first) (num 18) w1 = Return (VRef second, w2)
    /\ second <> first
    /\ array_elems w2 (VRef first)
       = Some [VRef 0%nat; VRef 1%nat; VRef 2%nat]
    /\ array_elems w2 (VRef second) = Some [VRef 0%nat; VRef 2%nat].
Proof.
  exact (filterUsersByAge_twice four_users (VRef 4%nat) _
           (num_of_Z 17) (num_of_Z 18) eq_refl eq_refl eq_refl eq_refl).
Defined.

(** X7.  NaN passes for [minAge], and then no element is kept: on an
    array of user-like mappings the result is a new, empty array. *)
Theorem filterUsersByAge_NaN_empty
    (w : world) (users : value) (elems : list value) :
  array_elems w users = Some elems ->
  forallb (user_like w) elems = true ->
  exists (kept : loc) (w' : world),
    filterUsersByAge users (VNumber NaN) w = Return (VRef kept, w')
    /\ nth_error (heap w) kept = None
    /\ array_elems w' (VRef kept) = Some [].
Proof.
  intros Harr Hu.
  rewrite (filterUsersByAge_returns w users elems NaN Harr Hu eq_refl).
  assert (E : aged_at_least w NaN elems = []).
  { unfold aged_at_least. clear. induction elems as [| v elems IH];
      [reflexivity |].
    simpl. destruct (age_of w v) as [a |]; [| exact IH].
    now rewrite num_ge_NaN_r. }
  rewrite E. set (c := CArray []).
  exists (List.length (heap w)), (snd (alloc c w)).
  destruct (alloc_fresh c w) as [Hnew Hat].
  split; [reflexivity |]. split; [exact Hnew |].
  unfold array_elems. now rewrite Hat.
Qed.

Lemma filterUsersByAge_NaN_empty_witness :
  exists (kept : loc) (w' : world),
    filterUsersByAge (VRef 4%nat) (VNumber NaN) four_users
    = Return (VRef kept, w')
    /\ nth_error (heap four_users) kept = None
    /\ array_elems w' (VRef kept) = Some [].
Proof.
  exact (filterUsersByAge_NaN_empty four_users (VRef 4%nat) _
           eq_refl eq_refl).
Defined.

(* ================================================================== *)
(** * Further properties: formatUserName *)

Lemma lower_unit_cases c :
  (lower_unit c = (c + 32)%N
   /\ ((65 <= c <= 90) \/ (192 <= c <= 214) \/ (216 <= c <= 222))%N)
  \/ (lower_unit c = c
      /\ ~ ((65 <= c <= 90) \/ (192 <= c <= 214) \/ (216 <= c <= 222))%N).
Proof.
  unfold lower_unit. case_bools; [left | left | right]; split;
    try reflexivity; lia.
Qed.

Lemma upper_lower_unit c : upper_unit (lower_unit c) = upper_unit c.
Proof.
  destruct (lower_unit_cases c) as [[-> H] | [-> _]]; [| reflexivity].
  unfold upper_unit.
  case_bools; try reflexivity; try lia; f_equal; lia.
Qed.

(** X8.  On strings of Latin-1 characters [formatUserName] does not look
    at the case of its argument: two strings with the same lower case
    get the same result (both raise, when they are empty). *)
Theorem formatUserName_ignores_case (s s' : jsstring) :
  Forall latin1 s -> Forall latin1 s' ->
  latin1_toLowerCase s = latin1_toLowerCase s' ->
  formatUserName latin1_toUpperCase latin1_toLowerCase (VString s)
  = formatUserName latin1_toUpperCase latin1_toLowerCase (VString s').
Proof.
  intros _ _ H.
  destruct s as [| c rest], s' as [| c' rest']; try discriminate;
    [reflexivity |].
  unfold latin1_toLowerCase in H. simpl in H. injection H as Hc Hrest.
  rewrite !formatUserName_cons, !latin1_toUpperCase_unit.
  unfold latin1_toLowerCase. rewrite Hrest.
  now rewrite <- (upper_lower_unit c), Hc, upper_lower_unit.
Qed.

Lemma formatUserName_ignores_case_witness :
  formatUserName latin1_toUpperCase latin1_toLowerCase (VString (js "JOHN"))
  = formatUserName latin1_toUpperCase latin1_toLowerCase
      (VString (js "john")).
Proof.
  apply (formatUserName_ignores_case (js "JOHN") (js "john")).
  - repeat constructor.
  - repeat constructor.
  - reflexivity.
Defined.

Lemma lower_unit_letter c : ascii_letter c -> ascii_lower (lower_unit c).
Proof.
  unfold ascii_letter, ascii_upper, ascii_lower, lower_unit.
  intros H. case_bools; lia.
Qed.

Lemma upper_unit_letter c :
  ascii_letter c -> exists u, upper_unit c = [u] /\ ascii_upper u.
Proof.
  unfold ascii_letter, ascii_upper, ascii_lower, upper_unit.
  intros H. case_bools; try (exfalso; lia);
    eexists; (split; [reflexivity | lia]).
Qed.

(** X9.  On a name of ASCII letters [formatUserName] returns a string of
    the same length: an upper-case letter followed by lower-case
    letters. *)
Theorem formatUserName_letters (c : code_unit) (rest : jsstring) :
  Forall ascii_letter (c :: rest) ->
  exists (u : code_unit) (ls : jsstring),
    formatUserName latin1_toUpperCase latin1_toLowerCase
      (VString (c :: rest)) = Return (VString (u :: ls))
    /\ ascii_upper u
    /\ Forall ascii_lower ls
    /\ List.length ls = List.length rest.
Proof.
  intros H. inversion H as [| c0 rest0 Hc Hrest]; subst.
  destruct (upper_unit_letter c Hc) as (u & Hu & Hup).
  exists u, (latin1_toLowerCase rest).
  rewrite formatUserName_cons, latin1_toUpperCase_unit, Hu.
  split; [reflexivity |]. split; [exact Hup |].
  unfold latin1_toLowerCase. split; [| apply length_map].
  apply Forall_map. revert Hrest. apply Forall_impl.
  exact lower_unit_letter.
Qed.

Lemma formatUserName_letters_witness :
  exists (u : code_unit) (ls : jsstring),
    formatUserName latin1_toUpperCase latin1_toLowerCase
      (VString (js "jOHN")) = Return (VString (u :: ls))
    /\ ascii_upper u
    /\ Forall ascii_lower ls
    /\ List.length ls = List.length (js "OHN").
Proof.
  apply (formatUserName_letters 106%N (js "OHN")).
  unfold js. simpl.
  repeat (apply Forall_cons;
          [unfold ascii_letter, ascii_upper, ascii_lower; lia |]).
  apply Forall_nil.
Defined.

(* ================================================================== *)
(** * Further properties: createUser *)

Lemma num_lt_false a b :
  num_lt a b = false ->
  is_NaN a = true \/ is_NaN b = true \/ num_ge a b = true.
Proof.
  destruct a as [| [|] | x], b as [| [|] | y]; simpl; auto;
    try discriminate.
  destruct (Qlt_le_dec x y) as [_ | Hle]; [discriminate |].
  intros _. right. right. now apply Qle_bool_iff.
Qed.

Lemma valid_age_number (age : value) :
  ~ invalid_age age ->
  exists a, age = VNumber a
            /\ num_lt a (num_of_Z 0) = false
            /\ num_gt a (num_of_Z 150) = false.
Proof.
  intros H. rewrite <- bad_age_iff in H.
  destruct age as [| | b | a | s | l]; try (now elim H).
  apply not_true_is_false, orb_false_iff in H. eauto.
Qed.

(** The record just allocated is read back field by field. *)
Lemma get_allocated fields w v w' k :
  (v, w') = alloc (CObject fields) w ->
  get w' v k = Return (lookup k fields).
Proof.
  intros [= -> ->]. unfold get. cbn [heap].
  rewrite nth_error_app2 by apply Nat.le_refl.
  now rewrite Nat.sub_diag.
Qed.

Section CreateUserOutcomes.

Variable toUpperCase toLowerCase : jsstring -> jsstring.

Abbreviation create := (createUser toUpperCase toLowerCase).
Abbreviation format := (formatUserName toUpperCase toLowerCase).

Lemma formatUserName_returns v r :
  format v = Return r ->
  exists c rest,
    v = VString (c :: rest)
    /\ r = VString (toUpperCase [c] ++ toLowerCase rest).
Proof.
  destruct v as [| | b | n | [| c rest] | l]; try discriminate.
  intros [= <-]. eauto.
Qed.

Lemma createUser_nullish userData w :
  is_nullish userData = true -> create userData w = Throw TypeError.
Proof. now destruct userData. Qed.

Lemma createUser_primitive userData w :
  match userData with
  | VBoolean _ | VNumber _ | VString _ => True
  | _ => False
  end ->
  create userData w = Throw (Error "Invalid email").
Proof. now destruct userData. Qed.

Lemma createUser_array l elems w :
  nth_error (heap w) l = Some (CArray elems) ->
  create (VRef l) w = Throw (Error "Invalid email").
Proof. intros E. unfold createUser, get. now rewrite E. Qed.

Lemma createUser_dangling l w :
  nth_error (heap w) l = None -> create (VRef l) w = Unmodelled.
Proof. intros E. unfold createUser, get. now rewrite E. Qed.

(** What [createUser] has checked when it returns, and what it returns. *)
Lemma createUser_returns userData w v w' :
  create userData w = Return (v, w') ->
  exists l props formatted,
    userData = VRef l
    /\ nth_error (heap w) l = Some (CObject props)
    /\ validateEmail (lookup "email" props) = true
    /\ validatePassword (lookup "password" props) = true
    /\ ~ invalid_age (lookup "age" props)
    /\ format (lookup "name" props) = Return formatted
    /\ (v, w') = alloc (CObject [("email", lookup "email" props);
                                 ("name", formatted);
                                 ("age", lookup "age" props);
                                 ("createdAt", VString (clock w))]) w.
Proof.
  intros H.
  destruct userData as [| | b | n | s | l];
    try (rewrite createUser_nullish in H by reflexivity; discriminate);
    try (rewrite createUser_primitive in H by exact I; discriminate).
  destruct (nth_error (heap w) l) as [[props | elems] |] eqn:E;
    [| rewrite (createUser_array _ _ _ E) in H; discriminate
     | rewrite (createUser_dangling _ _ E) in H; discriminate].
  destruct (validateEmail (lookup "email" props)) eqn:H1;
    [| rewrite (createUser_bad_email _ _ _ _ _ E H1) in H; discriminate].
  destruct (validatePassword (lookup "password" props)) eqn:H2;
    [| rewrite (createUser_bad_password _ _ _ _ _ E H1 H2) in H;
       discriminate].
  assert (H3 : ~ invalid_age (lookup "age" props)).
  { intros H3. rewrite (createUser_bad_age _ _ _ _ _ E H1 H2 H3) in H.
    discriminate. }
  rewrite (createUser_checked _ _ _ _ _ E H1 H2 H3) in H.
  destruct (format (lookup "name" props)) as [formatted | e |] eqn:Ef;
    try discriminate.
  cbn [bind] in H. injection H as Hv Hw.
  exists l, props, formatted. repeat split; auto.
  now rewrite <- Hv, <- Hw.
Qed.

(** X10.  The record [createUser] returns holds the four properties
    [email], [name], [age] and [createdAt] and no other: the password is
    not kept, nor is any further property of the input. *)
Theorem createUser_drops_password
    (userData : value) (w : world) (v : value) (w' : world) :
  create userData w = Return (v, w') ->
  get w' v "password" = Return VUndefined
  /\ forall k : string,
      record_key k = false -> get w' v k = Return VUndefined.
Proof.
  intros H.
  apply createUser_returns in H
    as (l & props & formatted & _ & _ & _ & _ & _ & _ & Halloc).
  split; [now rewrite (get_allocated _ _ _ _ _ Halloc) |].
  intros k Hk. rewrite (get_allocated _ _ _ _ _ Halloc).
  unfold record_key in Hk.
  apply orb_false_iff in Hk as [Hk H4].
  apply orb_false_iff in Hk as [Hk H3].
  apply orb_false_iff in Hk as [H1 H2].
  cbn [lookup]. now rewrite H1, H2, H3, H4.
Qed.

(** X11.  Every record [createUser] returns has an email that
    [validateEmail] accepts, a name that is a string and an age that is
    a number neither below 0 nor above 150; it is a user-like mapping,
    fit to be an element for [filterUsersByAge] and
    [calculateAverageAge]. *)
Theorem createUser_record_valid
    (userData : value) (w : world) (v : value) (w' : world) :
  create userData w = Return (v, w') ->
  exists (e : value) (n : jsstring) (a : number),
    get w' v "email" = Return e /\ validateEmail e = true
    /\ get w' v "name" = Return (VString n)
    /\ get w' v "age" = Return (VNumber a)
    /\ num_lt a (num_of_Z 0) = false
    /\ num_gt a (num_of_Z 150) = false
    /\ user_like w' v = true
    /\ age_of w' v = Some a.
Proof.
  intros H.
  apply createUser_returns in H
    as (l & props & formatted & _ & _ & He & _ & Hage & Hname & Halloc).
  apply formatUserName_returns in Hname as (c & rest & _ & ->).
  apply valid_age_number in Hage as (a & Ea & Hlo & Hhi).
  exists (lookup "email" props), (toUpperCase [c] ++ toLowerCase rest), a.
  rewrite !(get_allocated _ _ _ _ _ Halloc). cbn [lookup]. simpl String.eqb.
  cbv iota. rewrite Ea.
  repeat split; auto.
  - injection Halloc as -> ->. unfold user_like. cbn [heap].
    rewrite nth_error_app2 by apply Nat.le_refl.
    rewrite Nat.sub_diag. cbn [nth_error lookup]. simpl String.eqb.
    cbv iota. now rewrite Ea.
  - injection Halloc as -> ->. unfold age_of. cbn [heap].
    rewrite nth_error_app2 by apply Nat.le_refl.
    rewrite Nat.sub_diag. cbn [nth_error lookup]. simpl String.eqb.
    cbv iota. now rewrite Ea.
Qed.

(** X12.  When [createUser] returns, the record is at a location the
    heap did not have, the heap has grown by that one cell, and every
    cell it had, the input mapping among them, is as it was; the clock
    is only read. *)
Theorem createUser_preserves_heap
    (userData : value) (w : world) (v : value) (w' : world) :
  create userData w = Return (v, w') ->
  v = VRef (List.length (heap w))
  /\ List.length (heap w') = S (List.length (heap w))
  /\ (forall l c, nth_error (heap w) l = Some c ->
                  nth_error (heap w') l = Some c)
  /\ clock w' = clock w.
Proof.
  intros H.
  apply createUser_returns in H
    as (l & props & formatted & _ & _ & _ & _ & _ & _ & Halloc).
  injection Halloc as -> ->. cbn [heap clock].
  split; [reflexivity |].
  split; [rewrite length_app; simpl; lia |].
  split; [| reflexivity].
  intros l' c Hc. rewrite nth_error_app1; [exact Hc |].
  apply nth_error_Some. congruence.
Qed.

(** On a mapping [createUser] returns or raises one of four errors. *)
Lemma createUser_mapping_outcome w l props :
  nth_error (heap w) l = Some (CObject props) ->
  (exists r, create (VRef l) w = Return r)
  \/ create (VRef l) w = Throw (Error "Invalid email")
  \/ create (VRef l) w = Throw (Error "Invalid password")
  \/ create (VRef l) w = Throw (Error "Invalid age")
  \/ create (VRef l) w = Throw (Error "Name must be a non-empty string").
Proof.
  intros E.
  destruct (validateEmail (lookup "email" props)) eqn:H1;
    [| right; left; exact (createUser_bad_email _ _ _ _ _ E H1)].
  destruct (validatePassword (lookup "password" props)) eqn:H2;
    [| right; right; left;
       exact (createUser_bad_password _ _ _ _ _ E H1 H2)].
  destruct (match lookup "age" props with
            | VNumber a => num_lt a (num_of_Z 0) || num_gt a (num_of_Z 150)
            | _ => true
            end) eqn:Hb.
  - apply bad_age_iff in Hb. right; right; right; left.
    exact (createUser_bad_age _ _ _ _ _ E H1 H2 Hb).
  - assert (H3 : ~ invalid_age (lookup "age" props)).
    { rewrite <- bad_age_iff, Hb. discriminate. }
    rewrite (createUser_checked _ _ _ _ _ E H1 H2 H3).
    destruct (lookup "name" props) as [| | b | n | [| c rest] | l'];
      try (right; right; right; right; reflexivity).
    left. rewrite formatUserName_cons. cbn [bind]. eauto.
Qed.

(** X13.  With a valid email, a valid password and a name that is a
    non-empty string, a numeric age is accepted exactly when it lies in
    [0,150] or is NaN; the infinities are refused. *)
Theorem createUser_accepted_ages
    (w : world) (l : loc) (props : list (string * value))
    (a : number) (c : code_unit) (rest : jsstring) :
  nth_error (heap w) l = Some (CObject props) ->
  validateEmail (lookup "email" props) = true ->
  validatePassword (lookup "password" props) = true ->
  lookup "name" props = VString (c :: rest) ->
  lookup "age" props = VNumber a ->
  ((exists r, create (VRef l) w = Return r)
   <-> is_NaN a = true
       \/ (num_ge a (num_of_Z 0) = true
           /\ num_ge (num_of_Z 150) a = true)).
Proof.
  intros E H1 H2 Hn Ha. split.
  - intros ([v w'] & Hr).
    apply createUser_returns in Hr
      as (l0 & props0 & formatted & El & E0 & _ & _ & Hage & _ & _).
    injection El as <-. rewrite E in E0. injection E0 as <-.
    apply valid_age_number in Hage as (a' & Ea' & Hlo & Hhi).
    rewrite Ha in Ea'. injection Ea' as <-.
    apply num_lt_false in Hlo as [Hlo | [Hlo | Hlo]];
      [now left | discriminate |].
    unfold num_gt in Hhi.
    apply num_lt_false in Hhi as [Hhi | [Hhi | Hhi]];
      [discriminate | now left | now right].
  - intros Hok.
    assert (H3 : ~ invalid_age (lookup "age" props)).
    { rewrite Ha. intros [Ht | (a' & Ea' & Hbad)]; [now apply Ht |].
      injection Ea' as <-.
      destruct Hok as [Hnan | [Hlo Hhi]].
      - destruct a; try discriminate. destruct Hbad; discriminate.
      - apply num_ge_not_lt in Hlo, Hhi. unfold num_gt in Hbad.
        destruct Hbad; congruence. }
    rewrite (createUser_checked _ _ _ _ _ E H1 H2 H3), Hn.
    rewrite formatUserName_cons. cbn [bind]. eauto.
Qed.

(** X15.  Whatever exception [createUser] raises is a [TypeError] or an
    error with one of the four messages ["Invalid email"], ["Invalid
    password"], ["Invalid age"], ["Name must be a non-empty string"]. *)
Theorem createUser_exceptions (userData : value) (w : world) (e : exn) :
  create userData w = Throw e ->
  e = TypeError
  \/ e = Error "Invalid email"
  \/ e = Error "Invalid password"
  \/ e = Error "Invalid age"
  \/ e = Error "Name must be a non-empty string".
Proof.
  destruct userData as [| | b | n | s | l];
    try (rewrite createUser_nullish by reflexivity; intros [= <-]; auto);
    try (rewrite createUser_primitive by exact I; intros [= <-]; auto).
  destruct (nth_error (heap w) l) as [[props | elems] |] eqn:E.
  - destruct (createUser_mapping_outcome w l props E)
      as [(r & ->) | [-> | [-> | [-> | ->]]]];
      [discriminate | | | |]; intros [= <-]; auto 6.
  - rewrite (createUser_array _ _ _ E). intros [= <-]. auto.
  - rewrite (createUser_dangling _ _ E). discriminate.
Qed.

(** X14.  [createUser] ends in a [TypeError] exactly when its argument
    is [null] or [undefined]; on a boolean, a number, a string or an
    array every field reads as [undefined] and the error is ["Invalid
    email"]. *)
Theorem createUser_not_a_mapping (userData : value) (w : world) :
  (create userData w = Throw TypeError <-> is_nullish userData = true)
  /\ (match userData with
      | VBoolean _ | VNumber _ | VString _ => True
      | _ => isArray w userData = true
      end ->
      create userData w = Throw (Error "Invalid email")).
Proof.
  split.
  - split; [| apply createUser_nullish].
    destruct userData as [| | b | n | s | l]; try reflexivity;
      try (rewrite createUser_primitive by exact I; discriminate).
    destruct (nth_error (heap w) l) as [[props | elems] |] eqn:E.
    + destruct (createUser_mapping_outcome w l props E)
        as [(r & ->) | [-> | [-> | [-> | ->]]]]; discriminate.
    + rewrite (createUser_array _ _ _ E). discriminate.
    + rewrite (createUser_dangling _ _ E). discriminate.
  - destruct userData as [| | b | n | s | l]; try discriminate;
      try (intros _; now apply createUser_primitive).
    unfold isArray, array_elems.
    destruct (nth_error (heap w) l) as [[props | elems] |] eqn:E;
      try discriminate.
    intros _. exact (createUser_array _ _ _ E).
Qed.

End CreateUserOutcomes.

Lemma createUser_drops_password_witness :
  exists (v : value) (w' : world),
    createUser latin1_toUpperCase latin1_toLowerCase (VRef 0%nat)
      valid_user_data = Return (v, w')
    /\ get w' v "password" = Return VUndefined
    /\ forall k : string,
        record_key k = false -> get w' v k = Return VUndefined.
Proof.
  eexists _, _. split; [reflexivity |].
  apply (createUser_drops_password latin1_toUpperCase latin1_toLowerCase
           (VRef 0%nat) valid_user_data).
  reflexivity.
Defined.

Lemma createUser_record_valid_witness :
  exists (v : value) (w' : world),
    createUser latin1_toUpperCase latin1_toLowerCase (VRef 0%nat)
      valid_user_data = Return (v, w')
    /\ exists (e : value) (n : jsstring) (a : number),
        get w' v "email" = Return e /\ validateEmail e = true
        /\ get w' v "name" = Return (VString n)
        /\ get w' v "age" = Return (VNumber a)
        /\ num_lt a (num_of_Z 0) = false
        /\ num_gt a (num_of_Z 150) = false
        /\ user_like w' v = true
        /\ age_of w' v = Some a.
Proof.
  eexists _, _. split; [reflexivity |].
  apply (createUser_record_valid latin1_toUpperCase latin1_toLowerCase
           (VRef 0%nat) valid_user_data).
  reflexivity.
Defined.

Lemma createUser_preserves_heap_witness :
  exists (v : value) (w' : world),
    createUser latin1_toUpperCase latin1_toLowerCase (VRef 0%nat)
      valid_user_data = Return (v, w')
    /\ v = VRef (List.length (heap valid_user_data))
    /\ List.length (heap w') = S (List.length (heap valid_user_data))
    /\ (forall l c, nth_error (heap valid_user_data) l = Some c ->
                    nth_error (heap w') l = Some c)
    /\ clock w' = clock valid_user_data.
Proof.
  eexists _, _. split; [reflexivity |].
  apply (createUser_preserves_heap latin1_toUpperCase latin1_toLowerCase
           (VRef 0%nat) valid_user_data).
  reflexivity.
Defined.

(** The age NaN is accepted. *)
Lemma createUser_accepted_ages_witness :
  (exists r,
      createUser latin1_toUpperCase latin1_toLowerCase (VRef 0%nat)
        nan_age_data = Return r)
  <-> is_NaN NaN = true
      \/ (num_ge NaN (num_of_Z 0) = true
          /\ num_ge (num_of_Z 150) NaN = true).
Proof.
  exact (createUser_accepted_ages latin1_toUpperCase latin1_toLowerCase
           nan_age_data 0%nat _ NaN 106%N (js "ohn")
           eq_refl eq_refl eq_refl eq_refl eq_refl).
Defined.

Lemma createUser_exceptions_witness :
  Error "Invalid password" = TypeError
  \/ Error "Invalid password" = Error "Invalid email"
  \/ Error "Invalid password" = Error "Invalid password"
  \/ Error "Invalid password" = Error "Invalid age"
  \/ Error "Invalid password" = Error "Name must be a non-empty string".
Proof.
  apply (createUser_exceptions latin1_toUpperCase latin1_toLowerCase
           (VRef 0%nat) weak_password_data (Error "Invalid password")).
  reflexivity.
Defined.

(* ================================================================== *)
(** * Further properties: calculateAverageAge *)

Local Open Scope Q_scope.

Lemma num_add_NaN_l a : num_add NaN a = NaN.
Proof. reflexivity. Qed.

Lemma num_add_NaN_r a : num_add a NaN = NaN.
Proof. now destruct a. Qed.

Lemma fold_num_add_NaN (l : list number) :
  fold_left num_add l NaN = NaN.
Proof. induction l as [| a l IH]; [reflexivity | exact IH]. Qed.

Lemma fold_num_add_taints (l : list number) (acc : number) :
  existsb is_NaN l = true -> fold_left num_add l acc = NaN.
Proof.
  revert acc. induction l as [| a l IH]; intros acc; [discriminate |].
  cbn [existsb fold_left]. rewrite orb_true_iff. intros [Ha | Hl].
  - destruct a; try discriminate.
    rewrite num_add_NaN_r. apply fold_num_add_NaN.
  - now apply IH.
Qed.

(** The sum [reduce] builds over user-like mappings: an absent age
    counts as NaN. *)
Lemma array_reduce_user_like w elems :
  forallb (user_like w) elems = true ->
  forall acc,
    array_reduce (fun sum user => age <- get w user "age";; js_add sum age)
      elems (VNumber acc)
    = Return (VNumber (fold_left num_add (map (age_or_NaN w) elems) acc)).
Proof.
  induction elems as [| v elems IH]; intros Hu acc; [reflexivity |].
  cbn [forallb] in Hu. apply andb_true_iff in Hu as [Hv Hrest].
  cbn [array_reduce map fold_left].
  assert (Hstep : (age <- get w v "age";; js_add (VNumber acc) age)
                  = Return (VNumber (num_add acc (age_or_NaN w v)))).
  { unfold user_like in Hv. unfold get, age_or_NaN, age_of.
    destruct v as [| | b | n | s | l]; try discriminate.
    destruct (nth_error (heap w) l) as [[props | arr] |]; try discriminate.
    now destruct (lookup "age" props) as [| | b | a | s | l']. }
  rewrite Hstep. cbn [bind]. now apply IH.
Qed.

(** X17.  On an array of user-like mappings of which one has no age, or
    the age NaN, [calculateAverageAge] returns NaN. *)
Theorem calculateAverageAge_NaN
    (w : world) (users : value) (elems : list value) :
  array_elems w users = Some elems ->
  forallb (user_like w) elems = true ->
  existsb (fun v => is_NaN (age_or_NaN w v)) elems = true ->
  calculateAverageAge users w = Return (VNumber NaN, w).
Proof.
  intros Harr Hu Hnan.
  unfold calculateAverageAge. rewrite Harr.
  destruct elems as [| v elems']; [discriminate |].
  cbv beta iota. remember (v :: elems') as elems eqn:Eelems.
  rewrite (array_reduce_user_like w elems Hu).
  rewrite fold_num_add_taints; [reflexivity |].
  clear - Hnan. induction elems as [| v elems IH]; [discriminate |].
  cbn [existsb map] in *. apply orb_true_iff in Hnan as [H | H].
  - now rewrite H.
  - rewrite (IH H). apply orb_true_r.
Qed.

(** A user of age 20 and a user without age. *)
Lemma calculateAverageAge_NaN_witness :
  calculateAverageAge (VRef 2%nat) ageless_user
  = Return (VNumber NaN, ageless_user).
Proof.
  exact (calculateAverageAge_NaN ageless_user (VRef 2%nat) _
           eq_refl eq_refl eq_refl).
Defined.

Local Close Scope Q_scope.

(** X19.  A record [createUser] returns is no input for [createUser]:
    it has a valid email and no password, so the second call raises
    ["Invalid password"]. *)
Theorem createUser_twice
    (toUpperCase toLowerCase : jsstring -> jsstring)
    (userData : value) (w : world) (v : value) (w' : world) :
  createUser toUpperCase toLowerCase userData w = Return (v, w') ->
  createUser toUpperCase toLowerCase v w' = Throw (Error "Invalid password").
Proof.
  intros H.
  apply createUser_returns in H
    as (l & props & formatted & _ & _ & He & _ & _ & _ & Halloc).
  injection Halloc as -> ->.
  apply (createUser_bad_password toUpperCase toLowerCase _ _
           [("email", lookup "email" props);
            ("name", formatted);
            ("age", lookup "age" props);
            ("createdAt", VString (clock w))]).
  - cbn [heap]. rewrite nth_error_app2 by apply Nat.le_refl.
    now rewrite Nat.sub_diag.
  - exact He.
  - reflexivity.
Qed.

Lemma createUser_twice_witness :
  exists (v : value) (w' : world),
    createUser latin1_toUpperCase latin1_toLowerCase (VRef 0%nat)
      valid_user_data = Return (v, w')
    /\ createUser latin1_toUpperCase latin1_toLowerCase v w'
       = Throw (Error "Invalid password").
Proof.
  eexists _, _. split; [reflexivity |].
  apply (createUser_twice latin1_toUpperCase latin1_toLowerCase
           (VRef 0%nat) valid_user_data).
  reflexivity.
Defined.

(* ================================================================== *)
(** * Further properties: integer ages in binary64 *)

Local Open Scope Z_scope.

(** Binary64 rounding on known values: 0.1 is not representable;
    [2^53 + 1] is a tie and goes to the even [2^53], [2^53 + 3] to
    [2^53 + 4]; the largest finite value [2^1024 - 2^971] is kept, and
    what is half a unit in the last place above it is an infinity;
    [2^-1074] is the smallest positive value and half of it is 0. *)
Lemma round64_examples :
  round64 (1 # 10) = Fin (3602879701896397 # 36028797018963968)
  /\ round64 (inject_Z (2 ^ 53 + 1)) = Fin (inject_Z (2 ^ 53))
  /\ round64 (inject_Z (2 ^ 53 + 3)) = Fin (inject_Z (2 ^ 53 + 4))
  /\ round64 (inject_Z (2 ^ 1024 - 2 ^ 971))
     = Fin (inject_Z (2 ^ 1024 - 2 ^ 971))
  /\ round64 (inject_Z (2 ^ 1024 - 2 ^ 970)) = Inf false
  /\ round64 (- inject_Z (2 ^ 1024)) = Inf true
  /\ round64 (1 # Z.to_pos (2 ^ 1074)) = Fin (1 # Z.to_pos (2 ^ 1074))
  /\ round64 (1 # Z.to_pos (2 ^ 1075)) = Fin 0.
Proof.
  repeat split; vm_compute; reflexivity.
Qed.

Lemma round64_eq (q q' : Q) : (q == q')%Q -> round64 q = round64 q'.
Proof.
  intros H. unfold round64. now rewrite (Qred_complete _ _ H).
Qed.

Lemma round_half_even_exact (m d : Z) :
  0 < d -> round_half_even (m * d) d = m.
Proof.
  intros Hd. unfold round_half_even.
  rewrite Z.mod_mul by lia. rewrite Z.div_mul by lia.
  change (2 * 0) with 0.
  destruct (Z.compare_spec 0 d); lia.
Qed.

Lemma Qlog2_Z (z : Z) : 0 < z -> Qlog2 z 1 = Z.log2 z.
Proof.
  intros Hz. unfold Qlog2. change (Z.log2 1) with 0. rewrite Z.sub_0_r.
  pose proof (Z.log2_nonneg z) as Hn.
  destruct (Z.leb_spec 0 (Z.log2 z)); [| lia].
  pose proof (Z.log2_spec z Hz) as [Hlo _].
  destruct (Z.ltb_spec z (1 * 2 ^ Z.log2 z)); [lia | reflexivity].
Qed.

Lemma scale2_exact (z k : Z) :
  0 <= k -> scale2 (z * 2 ^ k) (- k) = inject_Z z.
Proof.
  intros Hk. unfold scale2.
  destruct (Z.leb_spec 0 (- k)) as [H | H].
  - assert (k = 0) by lia. subst k. simpl. now rewrite Z.mul_1_r, Z.mul_1_r.
  - rewrite Z.opp_involutive.
    assert (Hp : 0 < 2 ^ k) by (apply Z.pow_pos_nonneg; lia).
    rewrite <- (Qcanon.Qred_identity (inject_Z z))
      by (simpl; apply Z.gcd_1_r).
    apply Qred_complete. unfold Qeq. simpl.
    rewrite Z2Pos.id by exact Hp. lia.
Qed.

Lemma round64_pos_Z (z : Z) :
  0 < z -> z <= 2 ^ 53 -> round64_pos z 1 = Fin (inject_Z z).
Proof.
  intros Hz Hmax. unfold round64_pos. rewrite (Qlog2_Z z Hz).
  pose proof (Z.log2_nonneg z) as Hn.
  assert (Hl : Z.log2 z <= 53).
  { change 53 with (Z.log2 (2 ^ 53)). now apply Z.log2_le_mono. }
  rewrite Z.max_l by lia.
  destruct (Z.leb_spec 0 (Z.log2 z - 52)) as [Hu | Hu].
  - assert (Hc : Z.log2 z = 52 \/ Z.log2 z = 53) by lia.
    destruct Hc as [Hc | Hc]; rewrite Hc.
    + change (52 - 52) with 0. change (2 ^ 0) with 1.
      rewrite !Z.mul_1_r.
      replace (round_half_even z 1) with z
        by (symmetry; rewrite <- (Z.mul_1_r z) at 1;
            apply round_half_even_exact; lia).
      destruct (Z.leb_spec (2 ^ 1024) z) as [H | H].
      * exfalso. assert (2 ^ 53 < 2 ^ 1024) by reflexivity. lia.
      * unfold scale2. simpl. now rewrite Z.mul_1_r.
    + assert (z = 2 ^ 53).
      { pose proof (Z.log2_spec z Hz) as [Hlo _]. rewrite Hc in Hlo. lia. }
      subst z. vm_compute. reflexivity.
  - replace (z * 2 ^ (- (Z.log2 z - 52))) with (z * 2 ^ (52 - Z.log2 z))
      by (f_equal; f_equal; lia).
    assert (Hp : 0 < 2 ^ (52 - Z.log2 z)) by (apply Z.pow_pos_nonneg; lia).
    assert (Hm : round_half_even (z * 2 ^ (52 - Z.log2 z)) 1
                 = z * 2 ^ (52 - Z.log2 z)).
    { rewrite <- (Z.mul_1_r (z * 2 ^ (52 - Z.log2 z))) at 1.
      apply round_half_even_exact. lia. }
    rewrite Hm.
    rewrite (Z.pow_neg_r 2 (Z.log2 z - 52)) by lia. rewrite Z.mul_0_r.
    change (2 ^ 1024 <=? 0) with false. cbv iota.
    replace (Z.log2 z - 52) with (- (52 - Z.log2 z)) by lia.
    rewrite scale2_exact by lia. reflexivity.
Qed.

(** Binary64 holds every integer up to [2^53] exactly. *)
Lemma round64_Z (z : Z) :
  - 2 ^ 53 <= z <= 2 ^ 53 -> round64 (inject_Z z) = Fin (inject_Z z).
Proof.
  intros [Hlo Hhi]. unfold round64.
  rewrite (Qcanon.Qred_identity (inject_Z z)) by (simpl; apply Z.gcd_1_r).
  simpl Qnum. simpl Qden.
  destruct z as [| p | p]; [reflexivity | |].
  - apply round64_pos_Z; lia.
  - rewrite round64_pos_Z by lia. cbn [num_opp]. f_equal.
    apply Qcanon.Qred_identity. exact (Z.gcd_1_r (Z.neg p)).
Qed.

Lemma binary64_fold_Z (zs : list Z) :
  Forall (fun a => 0 <= a) zs ->
  forall acc : Z,
    0 <= acc -> acc + Zsum zs <= 2 ^ 53 ->
    fold_left num_add (map Fin (map inject_Z zs)) (Fin (inject_Z acc))
    = Fin (inject_Z (acc + Zsum zs)).
Proof.
  induction 1 as [| a zs Ha Hzs IH]; intros acc Hacc Hmax.
  - simpl. now rewrite Z.add_0_r.
  - cbn [map fold_left num_add Zsum fold_right] in *. fold (Zsum zs) in *.
    assert (Hs : 0 <= Zsum zs).
    { clear - Hzs. induction Hzs as [| b zs Hb _ IHz]; simpl; lia. }
    rewrite (round64_eq _ (inject_Z (acc + a)))
      by (now rewrite inject_Z_plus).
    rewrite round64_Z by lia.
    rewrite IH by lia. f_equal. f_equal. lia.
Qed.

Lemma Q_zero_count (n : nat) :
  n <> 0%nat -> Q_zero (inject_Z (Z.of_nat n)) = false.
Proof.
  intros Hn. unfold Q_zero. destruct (Qeq_bool _ 0) eqn:E; [| reflexivity].
  apply Qeq_bool_iff in E. unfold Qeq in E. simpl in E. lia.
Qed.

(** X20.  In binary64 arithmetic: for non-negative integer ages whose
    sum is at most [2^53] and whose mean is an integer [z], with
    [100 z] at most [2^53], [calculateAverageAge] returns exactly [z]. *)
Theorem calculateAverageAge_integer_mean
    (w : world) (users : value) (elems : list value) (zs : list Z)
    (z : Z) :
  array_elems w users = Some elems -> elems <> [] ->
  Forall2 (has_finite_age w) elems (map inject_Z zs) ->
  Forall (fun a => 0 <= a) zs ->
  Zsum zs = Z.of_nat (List.length zs) * z ->
  Zsum zs <= 2 ^ 53 ->
  100 * z <= 2 ^ 53 ->
  calculateAverageAge users w = Return (num z, w).
Proof.
  intros Harr Hne Hages Hpos Hmean Hsum Hz.
  rewrite (calculateAverageAge_value w users elems _ Harr Hne Hages).
  assert (Hn : List.length zs <> 0%nat).
  { intros E. destruct zs; [| discriminate].
    inversion Hages. congruence. }
  assert (Hs : 0 <= Zsum zs).
  { clear - Hpos. induction Hpos as [| b zs Hb _ IHz]; simpl; lia. }
  assert (Hz0 : 0 <= z) by nia.
  unfold scaled_mean, binary64_sum, num_of_Z.
  rewrite length_map.
  rewrite (binary64_fold_Z zs Hpos 0) by lia. rewrite Z.add_0_l.
  cbn [num_div]. rewrite (Q_zero_count _ Hn).
  rewrite (round64_eq _ (inject_Z z)).
  2:{ rewrite Hmean, inject_Z_mult. field.
      intros E. unfold Qeq in E. simpl in E. lia. }
  rewrite round64_Z by lia.
  cbn [num_mul].
  rewrite (round64_eq _ (inject_Z (z * 100)))
    by (now rewrite inject_Z_mult).
  rewrite round64_Z by lia.
  cbn [Math_round num_of_Z].
  rewrite (Qfloor_unique _ (z * 100)) by lra.
  cbn [num_div num_of_Z]. change (Q_zero (inject_Z 100)) with false. cbv iota.
  rewrite (round64_eq _ (inject_Z z)).
  2:{ rewrite inject_Z_mult. change (inject_Z 100) with 100%Q. field. }
  now rewrite round64_Z by lia.
Qed.

(** The ages 20, 30, 40 of the tests have the mean 30. *)
Lemma calculateAverageAge_integer_mean_witness :
  calculateAverageAge (VRef 3%nat) three_users = Return (num 30, three_users).
Proof.
  apply (calculateAverageAge_integer_mean three_users (VRef 3%nat)
           [VRef 0%nat; VRef 1%nat; VRef 2%nat] [20; 30; 40] 30).
  - reflexivity.
  - discriminate.
  - repeat constructor.
  - repeat constructor; discriminate.
  - reflexivity.
  - discriminate.
  - discriminate.
Defined.
